(** * snap7_easy_vars: typed PLC records over a fixed-layout byte buffer

    A shallow embedding of [snap7_easy_vars/fields.py], [data.py] and
    [connection.py], followed by the properties of the serialization
    engine and of the connection manager.

    Conventions
    - Python [int] is [Z]; a Python [float] (IEEE binary64) is a
      [spec_float] in binary64 canonical form.
    - [bytes] / [bytearray] are [list byte]; every index and slice goes
      through the Python rules (negative indices count from the end,
      slices clamp, item access out of range raises [IndexError]).
    - A call that may raise returns a [result]. *)

From Stdlib Require Import ZArith Lia Bool.
From Stdlib Require Import Strings.Byte Floats.SpecFloat.
From stdpp Require Import base option list gmap strings.

Local Open Scope Z_scope.

(** ** Exceptions and results *)

Inductive exn : Type :=
  | IndexError
  | ValueError
  | OverflowError
  | StructError
  | QueueFull
  | TransportError.

Inductive result (A : Type) : Type :=
  | Ok (a : A)
  | Raise (e : exn).
Arguments Ok {A} a.
Arguments Raise {A} e.

#[global] Instance result_bind : MBind result := fun A B k r =>
  match r with
  | Ok a => k a
  | Raise e => Raise e
  end.

#[global] Instance result_ret : MRet result := fun A a => Ok a.

(** ** Python values held by a record *)

Inductive pyval : Type :=
  | VInt (n : Z)
  | VFloat (x : spec_float).

Definition is_inf (x : spec_float) : bool :=
  match x with S754_infinity _ => true | _ => false end.

Definition is_nan (x : spec_float) : bool :=
  match x with S754_nan => true | _ => false end.

(** [bool(value)] *)
Definition py_bool (v : pyval) : bool :=
  match v with
  | VInt n => negb (n =? 0)
  | VFloat (S754_zero _) => false
  | VFloat _ => true
  end.

(** [int(value)]: truncation towards zero; [inf] and [nan] raise. *)
Definition py_int (v : pyval) : result Z :=
  match v with
  | VInt n => Ok n
  | VFloat (S754_zero _) => Ok 0
  | VFloat (S754_finite s m e) =>
      let a := if 0 <=? e then Z.pos m * 2 ^ e else Z.pos m / 2 ^ (- e) in
      Ok (if s then - a else a)
  | VFloat (S754_infinity _) => Raise OverflowError
  | VFloat S754_nan => Raise ValueError
  end.

(** [float(value)]: an [int] is rounded to the nearest binary64 (ties to
    even) and raises when it is too large. *)
Definition py_float (v : pyval) : result spec_float :=
  match v with
  | VFloat x => Ok x
  | VInt n =>
      let y := binary_normalize 53 1024 n 0 false in
      if is_inf y then Raise OverflowError else Ok y
  end.

(** ** Bytes *)

Definition byte_to_Z (b : byte) : Z := Z.of_N (Byte.to_N b).

(** Storing an [int] into a [bytearray] cell: [ValueError] outside
    [range(0, 256)]. *)
Definition byte_of_Z (z : Z) : result byte :=
  if z <? 0 then Raise ValueError
  else match Byte.of_N (Z.to_N z) with
       | Some b => Ok b
       | None => Raise ValueError
       end.

(** The byte holding [z mod 256]. *)
Definition byte_wrap (z : Z) : byte :=
  match Byte.of_N (Z.to_N (z mod 256)) with
  | Some b => b
  | None => x00
  end.

Definition blen (l : list byte) : Z := Z.of_nat (length l).

(** Position of [l[i]] for a sequence of length [n]. *)
Definition py_index (n i : Z) : result nat :=
  let j := if i <? 0 then i + n else i in
  if (j <? 0) || (n <=? j) then Raise IndexError else Ok (Z.to_nat j).

(** [l[i]] *)
Definition getitem (l : list byte) (i : Z) : result byte :=
  j ← py_index (blen l) i;
  match l !! j with
  | Some b => Ok b
  | None => Raise IndexError
  end.

(** [l[i] = v] on a [bytearray] *)
Definition setitem (l : list byte) (i : Z) (v : Z) : result (list byte) :=
  j ← py_index (blen l) i;
  b ← byte_of_Z v;
  Ok (<[j := b]> l).

(** A slice bound after [PySlice_AdjustIndices] (step 1). *)
Definition slice_bound (n i : Z) : Z :=
  if i <? 0 then Z.max (i + n) 0 else Z.min i n.

(** [l[a:b]] *)
Definition getslice (l : list byte) (a b : Z) : list byte :=
  let lo := slice_bound (blen l) a in
  let hi := slice_bound (blen l) b in
  take (Z.to_nat (hi - lo)) (drop (Z.to_nat lo) l).

(** [l[a:b] = bs] on a [bytearray]: the slice is replaced by [bs],
    whatever the two lengths are. *)
Definition setslice (l : list byte) (a b : Z) (bs : list byte) : list byte :=
  let lo := slice_bound (blen l) a in
  let hi := Z.max lo (slice_bound (blen l) b) in
  take (Z.to_nat lo) l ++ bs ++ drop (Z.to_nat hi) l.

(** ** Integers on the wire: [int.to_bytes] and [int.from_bytes], big-endian *)

Fixpoint be_bytes (n : nat) (u : Z) : list byte :=
  match n with
  | O => []
  | S n' => byte_wrap (u / 256 ^ Z.of_nat n') :: be_bytes n' u
  end.

Definition be_value (bs : list byte) : Z :=
  fold_left (fun acc b => acc * 256 + byte_to_Z b) bs 0.

Definition int_to_bytes (size : nat) (signed : bool) (v : Z) : result (list byte) :=
  let bits := 8 * Z.of_nat size in
  if signed then
    if (- 2 ^ (bits - 1) <=? v) && (v <? 2 ^ (bits - 1))
    then Ok (be_bytes size (v mod 2 ^ bits))
    else Raise OverflowError
  else
    if (0 <=? v) && (v <? 2 ^ bits)
    then Ok (be_bytes size v)
    else Raise OverflowError.

Definition int_from_bytes (signed : bool) (bs : list byte) : Z :=
  let bits := 8 * blen bs in
  let u := be_value bs in
  match bs with
  | [] => 0
  | _ => if signed && (2 ^ (bits - 1) <=? u) then u - 2 ^ bits else u
  end.

(** ** [struct.pack(">f", x)] and [struct.unpack(">f", bs)]

    A binary32 datum is a [spec_float] valid for precision 24 and
    maximal exponent 128.  NaN carries neither sign nor payload here:
    it packs as the quiet NaN [7f c0 00 00]. *)

(** The C conversion [(float) x]: nearest binary32, ties to even. *)
Definition round32 (x : spec_float) : spec_float :=
  match x with
  | S754_finite s m e => binary_round 24 128 s m e
  | _ => x
  end.

(** The binary64 that holds the same number as a binary32 datum. *)
Definition double_of_b32 (x : spec_float) : spec_float :=
  match x with
  | S754_finite s m e => binary_round 53 1024 s m e
  | _ => x
  end.

Definition sign_bit (s : bool) : Z := if s then 2 ^ 31 else 0.

Definition bits_of_b32 (x : spec_float) : Z :=
  match x with
  | S754_zero s => sign_bit s
  | S754_infinity s => sign_bit s + 255 * 2 ^ 23
  | S754_nan => 255 * 2 ^ 23 + 2 ^ 22
  | S754_finite s m e =>
      if Z.pos m <? 2 ^ 23 then sign_bit s + Z.pos m
      else sign_bit s + (e + 150) * 2 ^ 23 + (Z.pos m - 2 ^ 23)
  end.

Definition b32_of_bits (u : Z) : spec_float :=
  let s := 2 ^ 31 <=? u in
  let ex := (u / 2 ^ 23) mod 256 in
  let fr := u mod 2 ^ 23 in
  if ex =? 0 then
    if fr =? 0 then S754_zero s else S754_finite s (Z.to_pos fr) (- 149)
  else if ex =? 255 then
    if fr =? 0 then S754_infinity s else S754_nan
  else S754_finite s (Z.to_pos (fr + 2 ^ 23)) (ex - 150).

(** [struct.pack(">f", x)]: a finite [x] that rounds to an infinity
    raises [OverflowError]. *)
Definition pack_f (x : spec_float) : result (list byte) :=
  let y := round32 x in
  if is_inf y && negb (is_inf x) then Raise OverflowError
  else Ok (be_bytes 4 (bits_of_b32 y)).

(** [struct.unpack(">f", bs)[0]]: [struct.error] unless [bs] has 4 bytes. *)
Definition unpack_f (bs : list byte) : result spec_float :=
  if (length bs =? 4)%nat then Ok (double_of_b32 (b32_of_bits (be_value bs)))
  else Raise StructError.

(** [a << n] and [a >> n]: a negative shift count raises [ValueError]. *)
Definition py_shiftl (a n : Z) : result Z :=
  if n <? 0 then Raise ValueError else Ok (Z.shiftl a n).

Definition py_shiftr (a n : Z) : result Z :=
  if n <? 0 then Raise ValueError else Ok (Z.shiftr a n).

(** * fields.py *)

(** The three field classes.  [default] is the value left by
    [__init__]: [int(bool(default))], [int(default)], [float(default)]. *)
Inductive PLCField : Type :=
  | PLCBoolField (byte_offset bit_offset : Z) (default : bool) (settable : bool)
  | PLCWordField (byte_offset : Z) (default : Z) (signed settable : bool)
  | PLCRealField (byte_offset : Z) (default : spec_float) (settable : bool).

Definition byte_offset (f : PLCField) : Z :=
  match f with
  | PLCBoolField o _ _ _ | PLCWordField o _ _ _ | PLCRealField o _ _ => o
  end.

Definition size (f : PLCField) : Z :=
  match f with
  | PLCBoolField _ _ _ _ => 1
  | PLCWordField _ _ _ _ => 2
  | PLCRealField _ _ _ => 4
  end.

Definition default (f : PLCField) : pyval :=
  match f with
  | PLCBoolField _ _ d _ => VInt (if d then 1 else 0)
  | PLCWordField _ d _ _ => VInt d
  | PLCRealField _ d _ => VFloat d
  end.

Definition settable (f : PLCField) : bool :=
  match f with
  | PLCBoolField _ _ _ s | PLCWordField _ _ _ s | PLCRealField _ _ s => s
  end.

(** [PLCWordField._clamp] after [int(value)] *)
Definition _clamp (signed : bool) (value : Z) : Z :=
  if signed then Z.max (Z.min value 32767) (- 32768)
  else Z.max (Z.min value 65535) 0.

Definition coerce (f : PLCField) (value : pyval) : result pyval :=
  match f with
  | PLCBoolField _ _ _ _ => Ok (VInt (if py_bool value then 1 else 0))
  | PLCWordField _ _ signed _ => n ← py_int value; Ok (VInt (_clamp signed n))
  | PLCRealField _ _ _ => x ← py_float value; Ok (VFloat x)
  end.

Definition read (f : PLCField) (data : list byte) (current : pyval) : result pyval :=
  match f with
  | PLCBoolField byte_offset bit_offset _ _ =>
      if blen data <=? byte_offset then Ok current
      else
        byte_value ← getitem data byte_offset;
        shifted ← py_shiftr (byte_to_Z byte_value) bit_offset;
        Ok (VInt (Z.land shifted 1))
  | PLCWordField byte_offset _ signed _ =>
      let slice_ := getslice data byte_offset (byte_offset + size f) in
      if blen slice_ <? size f then Ok current
      else Ok (VInt (int_from_bytes signed slice_))
  | PLCRealField byte_offset _ _ =>
      let slice_ := getslice data byte_offset (byte_offset + size f) in
      if blen slice_ <? size f then Ok current
      else match unpack_f slice_ with
           | Ok x => Ok (VFloat x)
           | Raise StructError => Ok current
           | Raise e => Raise e
           end
  end.

Definition write (f : PLCField) (buffer : list byte) (value : pyval)
  : result (list byte) :=
  match f with
  | PLCBoolField byte_offset bit_offset _ _ =>
      value ← coerce f value;
      mask ← py_shiftl 1 bit_offset;
      old ← getitem buffer byte_offset;
      if py_bool value
      then setitem buffer byte_offset (Z.lor (byte_to_Z old) mask)
      else setitem buffer byte_offset
             (Z.land (byte_to_Z old) (Z.land (Z.lnot mask) 255))
  | PLCWordField byte_offset _ signed _ =>
      value ← py_int value;
      bs ← int_to_bytes (Z.to_nat (size f)) signed (_clamp signed value);
      Ok (setslice buffer byte_offset (byte_offset + size f) bs)
  | PLCRealField byte_offset _ _ =>
      x ← py_float value;
      bs ← pack_f x;
      Ok (setslice buffer byte_offset (byte_offset + size f) bs)
  end.

(** * data.py *)

(** ** [PLCDataMeta]: the schema is an [OrderedDict] from names to fields,
    kept here as an association list in insertion order. *)

Definition schema : Type := list (string * PLCField).

(** [fields[name] = field]: an existing key keeps its position. *)
Fixpoint od_set (name : string) (field : PLCField) (fields : schema) : schema :=
  match fields with
  | [] => [(name, field)]
  | (n, f) :: rest =>
      if String.eqb n name then (name, field) :: rest
      else (n, f) :: od_set name field rest
  end.

(** [fields.update(other)] *)
Definition od_update (fields other : schema) : schema :=
  fold_left (fun acc '(n, f) => od_set n f acc) other fields.

(** [PLCDataMeta.__new__]: the fields of the bases, in order, then the
    field descriptors of the class body. *)
Definition PLCDataMeta_new (bases : list schema) (namespace : schema) : schema :=
  od_update (fold_left od_update bases []) namespace.

(** ** Subscriber queues: [asyncio.Queue(maxsize=100)] *)

(** What [notify_subscribers] enqueues is the instance itself, by
    reference. *)
Inductive item : Type := InstanceRef.

Record Queue : Type := mkQueue { maxsize : nat; items : list item }.

Definition put_nowait (q : Queue) (x : item) : result Queue :=
  if (0 <? maxsize q)%nat && (maxsize q <=? length (items q))%nat
  then Raise QueueFull
  else Ok (mkQueue (maxsize q) (items q ++ [x])).

(** ** [PLCData] *)

Record PLCData : Type := mkPLCData {
  _fields : schema;                  (* class attribute set by the metaclass *)
  _values : gmap string pyval;
  _subscribers : list Queue;
  _last_connected : option Z;        (* a [datetime], in microseconds *)
  old_is_connected : bool            (* written by the setter before any read *)
}.

Definition set_values (d : PLCData) (vals : gmap string pyval) : PLCData :=
  mkPLCData (_fields d) vals (_subscribers d) (_last_connected d) (old_is_connected d).

Definition set_subscribers (d : PLCData) (subs : list Queue) : PLCData :=
  mkPLCData (_fields d) (_values d) subs (_last_connected d) (old_is_connected d).

Definition set_last_connected (d : PLCData) (t : option Z) : PLCData :=
  mkPLCData (_fields d) (_values d) (_subscribers d) t (old_is_connected d).

Definition set_old_is_connected (d : PLCData) (b : bool) : PLCData :=
  mkPLCData (_fields d) (_values d) (_subscribers d) (_last_connected d) b.

(** [IS_CONNECTED_TIMEOUT = 2] seconds *)
Definition IS_CONNECTED_TIMEOUT : Z := 2.

(** [PLCField.__get__]: [instance._values.get(self.name, self.default)] *)
Definition getattr (d : PLCData) (name : string) (field : PLCField) : pyval :=
  from_option id (default field) (_values d !! name).

(** [PLCField.__set__]: [instance._values[self.name] = self.coerce(value)] *)
Definition setattr (d : PLCData) (name : string) (field : PLCField) (value : pyval)
  : result PLCData :=
  v ← coerce field value;
  Ok (set_values d (<[name := v]> (_values d))).

Fixpoint init_values (fields : schema) : result (gmap string pyval) :=
  match fields with
  | [] => Ok ∅
  | (name, field) :: rest =>
      v ← coerce field (default field);
      vals ← init_values rest;
      Ok (<[name := v]> vals)
  end.

Definition od_get (fields : schema) (name : string) : option PLCField :=
  snd <$> find (fun '(n, _) => String.eqb n name) fields.

(** [PLCData.__init__], with [initial_values] the keyword arguments. *)
Definition PLCData_init (fields : schema) (initial_values : list (string * pyval))
  : result PLCData :=
  vals ← init_values fields;
  foldl (fun acc '(key, value) =>
           d ← acc;
           match od_get fields key with
           | Some field => setattr d key field value
           | None => Ok d
           end)
        (Ok (mkPLCData fields vals [] None false)) initial_values.

(** [max(field.byte_offset + field.size for field in cls._fields.values())] *)
Definition buffer_size (fields : schema) : Z :=
  match fields with
  | [] => 0
  | (_, f) :: rest =>
      fold_left (fun acc '(_, g) => Z.max acc (byte_offset g + size g)) rest
                (byte_offset f + size f)
  end.

(** [bytearray(n)]: zero-filled; a negative [n] raises [ValueError]. *)
Definition bytearray (n : Z) : result (list byte) :=
  if n <? 0 then Raise ValueError else Ok (replicate (Z.to_nat n) x00).

(** [notify_subscribers]: a full queue drops the notification. *)
Definition notify_subscribers (d : PLCData) : PLCData :=
  set_subscribers d
    (map (fun q => match put_nowait q InstanceRef with
                   | Ok q' => q'
                   | Raise _ => q
                   end) (_subscribers d)).

(** The loop of [from_bytes]; an exception leaves the values written so
    far in place. *)
Fixpoint from_bytes_loop (fields : schema) (raw : list byte)
  (vals : gmap string pyval) : result unit * gmap string pyval :=
  match fields with
  | [] => (Ok (), vals)
  | (name, field) :: rest =>
      let current := from_option id (default field) (vals !! name) in
      match read field raw current with
      | Ok v => from_bytes_loop rest raw (<[name := v]> vals)
      | Raise e => (Raise e, vals)
      end
  end.

Definition from_bytes (d : PLCData) (raw : list byte) : result unit * PLCData :=
  match from_bytes_loop (_fields d) raw (_values d) with
  | (Ok _, vals) => (Ok (), notify_subscribers (set_values d vals))
  | (Raise e, vals) => (Raise e, set_values d vals)
  end.

(** The loop of [to_bytes]. *)
Fixpoint to_bytes_loop (d : PLCData) (fields : schema) (buffer : list byte)
  : result (list byte) :=
  match fields with
  | [] => Ok buffer
  | (name, field) :: rest =>
      buffer' ← write field buffer (getattr d name field);
      to_bytes_loop d rest buffer'
  end.

Definition to_bytes (d : PLCData) : result (list byte) :=
  buffer ← bytearray (buffer_size (_fields d));
  to_bytes_loop d (_fields d) buffer.

(** [subscribe]: a fresh queue of capacity 100 is appended. *)
Definition subscribe (d : PLCData) : Queue * PLCData :=
  let q := mkQueue 100 [] in
  (q, set_subscribers d (_subscribers d ++ [q])).

(** The record of [examples/example.py]. *)
Definition MyPLCData : schema :=
  PLCDataMeta_new []
    [("temperature", PLCRealField 0 (S754_zero false) false);
     ("pressure", PLCWordField 4 0 false false);
     ("status", PLCBoolField 6 0 false true)].

(** * connection.py *)

(** ** The collaborators: clock, socket layer and snap7 client

    Each call takes the state of the outside world and returns its
    outcome with the next state.  [now] is [datetime.now()] in
    microseconds. *)
Class Environment (Env : Type) : Type := {
  now : Env -> Z * Env;
  get_connected : Env -> result bool * Env;
  create_connection : string -> Z -> spec_float -> Env -> result unit * Env;
  client_connect : string -> Z -> Z -> Z -> Env -> result unit * Env;
  db_read : Z -> Z -> Z -> Env -> result (list byte) * Env;
  db_write : Z -> Z -> list byte -> Env -> result unit * Env
}.

(** What a run did, oldest first: the calls on the collaborators and the
    method calls into the manager and its data store. *)
Inductive event : Type :=
  | CallConnect
  | GetConnected
  | CreateConnection
  | ClientConnect
  | DbRead (db_number start amount : Z)
  | DbWrite (db_number start : Z) (data : list byte)
  | ToBytes
  | FromBytes (raw : list byte)
  | CallLater (delay : Z).

Record PLCConnection : Type := mkPLCConnection {
  ip_address : string;
  db_number : Z;
  rack : Z;
  slot : Z;
  port : Z;
  connect_timeout : spec_float
}.

Record World (Env : Type) : Type := mkWorld {
  env : Env;
  data_store : PLCData;
  trace : list event
}.
Arguments mkWorld {Env} _ _ _.
Arguments env {Env} _.
Arguments data_store {Env} _.
Arguments trace {Env} _.

(** Stateful code that may raise: the state survives the exception. *)
Definition M (Env A : Type) : Type := World Env -> result A * World Env.

#[global] Instance M_ret {Env} : MRet (M Env) := fun A a w => (Ok a, w).

#[global] Instance M_bind {Env} : MBind (M Env) := fun A B k m w =>
  match m w with
  | (Ok a, w') => k a w'
  | (Raise e, w') => (Raise e, w')
  end.

Section Manager.
Context {Env : Type} `{Environment Env}.

(** [try: ... except Exception: ...] hands the outcome to the handler. *)
Definition try {A} (m : M Env A) : M Env (result A) := fun w =>
  let '(r, w') := m w in (Ok r, w').

Definition emit (e : event) : M Env unit := fun w =>
  (Ok (), mkWorld (env w) (data_store w) (trace w ++ [e])).

Definition call {A} (op : Env -> result A * Env) : M Env A := fun w =>
  let '(r, e') := op (env w) in (r, mkWorld e' (data_store w) (trace w)).

Definition clock : M Env Z := fun w =>
  let '(t, e') := now (env w) in (Ok t, mkWorld e' (data_store w) (trace w)).

Definition get_store : M Env PLCData := fun w => (Ok (data_store w), w).

Definition modify_store (f : PLCData -> PLCData) : M Env unit := fun w =>
  (Ok (), mkWorld (env w) (f (data_store w)) (trace w)).

(** *** The timed part of [PLCData] *)

(** The [is_connected] property.  A [datetime] has microsecond
    resolution, so times are integers counted in microseconds;
    [total_seconds()] divides the exact difference by 10^6 with correct
    rounding, and 2.0 is a float, hence the test against
    [IS_CONNECTED_TIMEOUT] seconds is the integer test below. *)
Definition is_connected : M Env bool :=
  d ← get_store;
  match _last_connected d with
  | None => mret false
  | Some last => t ← clock; mret (t - last <=? IS_CONNECTED_TIMEOUT * 1000000)
  end.

(** The setter of [last_connected]; [call_later] on the event loop is
    logged as [CallLater]. *)
Definition last_connected_setter (value : Z) : M Env unit :=
  old ← is_connected;
  modify_store (fun d => set_old_is_connected d old);;
  modify_store (fun d => set_last_connected d (Some value));;
  new ← is_connected;
  (if negb (eqb old new) then modify_store notify_subscribers else mret ());;
  emit (CallLater IS_CONNECTED_TIMEOUT).

Definition _on_connection_timeout : M Env unit :=
  d ← get_store;
  new ← is_connected;
  if negb (eqb (old_is_connected d) new) then
    modify_store notify_subscribers;;
    new' ← is_connected;
    modify_store (fun d => set_old_is_connected d new')
  else mret ().

Definition store_to_bytes : M Env (list byte) := fun w =>
  let w' := mkWorld (env w) (data_store w) (trace w ++ [ToBytes]) in
  (to_bytes (data_store w), w').

Definition store_from_bytes (raw : list byte) : M Env unit := fun w =>
  let '(r, d') := from_bytes (data_store w) raw in
  (r, mkWorld (env w) d' (trace w ++ [FromBytes raw])).

End Manager.

(** ** The methods of [PLCConnection] *)
Module Connection.
Section Methods.
Context {Env : Type} `{Environment Env}.

Definition connect (self : PLCConnection) : M Env bool :=
  emit CallConnect;;
  state ← try (emit GetConnected;; call get_connected);
  match state with
  | Ok true => mret true
  | Raise _ => mret false
  | Ok false =>
      probe ← try (emit CreateConnection;;
                   call (create_connection (ip_address self) (port self)
                           (connect_timeout self)));
      match probe with
      | Raise _ => mret false
      | Ok _ =>
          handshake ← try (emit ClientConnect;;
                           call (client_connect (ip_address self) (rack self)
                                   (slot self) (port self)));
          match handshake with
          | Raise _ => mret false
          | Ok _ =>
              t ← clock;
              last_connected_setter t;;
              mret true
          end
      end
  end.

(** [skip] stands for the early [return False] of the connection block. *)
Definition read (self : PLCConnection) : M Env bool :=
  state ← try (emit GetConnected;; call get_connected);
  let connected := match state with Ok b => b | Raise _ => false end in
  skip ←
    (if negb connected then
       ok ← connect self;
       if negb ok then connect self;; mret true else mret false
     else mret false);
  if skip : bool then mret false
  else
    d ← get_store;
    let byte_amount := buffer_size (_fields d) in
    data ← try (emit (DbRead (db_number self) 0 byte_amount);;
                call (db_read (db_number self) 0 byte_amount));
    match data with
    | Raise _ => mret false
    | Ok data =>
        store_from_bytes data;;
        t ← clock;
        last_connected_setter t;;
        mret true
    end.

Definition write (self : PLCConnection) : M Env bool :=
  new_bytes ← store_to_bytes;
  state ← try (emit GetConnected;; call get_connected);
  match state with
  | Raise _ => mret false
  | Ok connected =>
      skip ←
        (if negb connected then ok ← connect self; mret (negb ok)
         else mret false);
      if skip : bool then mret false
      else
        sent ← try (emit (DbWrite (db_number self) 0 new_bytes);;
                    call (db_write (db_number self) 0 new_bytes));
        match sent with
        | Raise _ => mret false
        | Ok _ =>
            t ← clock;
            last_connected_setter t;;
            mret true
        end
  end.
End Methods.
End Connection.

(** * Vocabulary of the properties *)

(** The value stored by [PLCBoolField.write], as a function of the old
    byte. *)
Definition bit_written (old bit : Z) (v : bool) : Z :=
  if v then Z.lor old (Z.shiftl 1 bit)
  else Z.land old (Z.land (Z.lnot (Z.shiftl 1 bit)) 255).

(** The field invariants of the data model: a byte offset from the
    start of the buffer, and a bit offset inside the byte. *)
Definition wf_field (f : PLCField) : Prop :=
  0 <= byte_offset f
  /\ match f with
     | PLCBoolField _ bit_offset _ _ => 0 <= bit_offset <= 7
     | _ => True
     end.

Definition wf_schema (fields : schema) : Prop :=
  NoDup fields.*1 /\ Forall (fun '(_, f) => wf_field f) fields.

(** What a field can hold once [coerce] or [read] has stored it. *)
Definition stored_value (f : PLCField) (v : pyval) : Prop :=
  match f with
  | PLCBoolField _ _ _ _ => v = VInt 0 \/ v = VInt 1
  | PLCWordField _ _ signed _ =>
      exists n, v = VInt n
                /\ if signed then - 32768 <= n <= 32767 else 0 <= n <= 65535
  | PLCRealField _ _ _ => exists x, v = VFloat x
  end.

(** A float that [struct.pack(">f", _)] accepts: infinite, NaN, or
    rounding to a finite binary32. *)
Definition fits_binary32 (x : spec_float) : Prop :=
  is_inf (round32 x) && negb (is_inf x) = false.

(** A stored value that is also in range for the wire format: reals are
    the binary64 images of binary32 numbers. *)
Definition in_range (f : PLCField) (v : pyval) : Prop :=
  match f with
  | PLCRealField _ _ _ =>
      exists y, valid_binary 24 128 y = true /\ is_nan y = false
                /\ v = VFloat (double_of_b32 y)
  | _ => stored_value f v
  end.

(** A stored value that [write] encodes without raising. *)
Definition encodable (f : PLCField) (v : pyval) : Prop :=
  stored_value f v
  /\ match f with
     | PLCRealField _ _ _ => forall x, v = VFloat x -> fits_binary32 x
     | _ => True
     end.

(** Two fields do not disturb each other: their byte ranges are
    disjoint, or they are two bits of one byte. *)
Definition compatible (f g : PLCField) : Prop :=
  byte_offset f + size f <= byte_offset g
  \/ byte_offset g + size g <= byte_offset f
  \/ match f, g with
     | PLCBoolField o1 b1 _ _, PLCBoolField o2 b2 _ _ => o1 = o2 /\ b1 <> b2
     | _, _ => False
     end.

Fixpoint non_overlapping (fields : schema) : Prop :=
  match fields with
  | [] => True
  | (_, f) :: rest =>
      Forall (fun '(_, g) => compatible f g) rest /\ non_overlapping rest
  end.

(** Every field of the record holds a value with property [P]. *)
Definition all_values (P : PLCField -> pyval -> Prop) (d : PLCData) : Prop :=
  Forall (fun '(name, f) => P f (getattr d name f)) (_fields d).

(** Encoding and decoding again brings every field back to its value. *)
Definition round_trips (d : PLCData) : Prop :=
  exists buf d',
    to_bytes d = Ok buf
    /\ from_bytes d buf = (Ok (), d')
    /\ Forall (fun '(name, f) => getattr d' name f = getattr d name f) (_fields d).

(** Position [i] lies in the byte range of some field. *)
Definition covered (fields : schema) (i : Z) : Prop :=
  Exists (fun '(_, f) => byte_offset f <= i < byte_offset f + size f) fields.

(** Reading field [f] from [buf] yields [v], whatever the current value. *)
Definition decodes (f : PLCField) (buf : list byte) (v : pyval) : Prop :=
  forall current, read f buf current = Ok v.

(** Two word fields declared at the same offset. *)
Definition overlapping_words : PLCData :=
  mkPLCData
    [("a", PLCWordField 0 0 false false); ("b", PLCWordField 0 0 false false)]
    (<["a" := VInt 1]> (<["b" := VInt 2]> ∅)) [] None false.

(** The binary64 nearest to 10^39, beyond the range of binary32. *)
Definition ten_to_39 : spec_float :=
  Eval vm_compute in binary_normalize 53 1024 (10 ^ 39) 0 false.

(** A record whose only field is a real holding [1e39]. *)
Definition huge_real : PLCData :=
  mkPLCData [("level", PLCRealField 0 (S754_zero false) true)]
            (<["level" := VFloat ten_to_39]> ∅) [] None false.

(** The record of the example with a temperature of 1.5, a pressure of
    1013 and the status bit set. *)
Definition sample_record : PLCData :=
  mkPLCData MyPLCData
    (<["temperature" := VFloat (double_of_b32 (S754_finite false 12582912 (- 23)))]>
       (<["pressure" := VInt 1013]> (<["status" := VInt 1]> ∅)))
    [] None false.

(** ** A scripted outside world

    The clock advances by [sim_tick] at every reading.  The answers of
    [get_connected], of the TCP probe and of the handshake are taken
    from scripts; once a script is used up the call reports the real
    connection state, respectively succeeds.  A successful handshake
    connects the client; the block is readable and writable only while
    it is connected. *)
Record Sim : Type := mkSim {
  sim_clock : Z;
  sim_tick : Z;
  sim_connected : bool;
  sim_state_script : list (result bool);
  sim_probe_script : list (result unit);
  sim_handshake_script : list (result unit);
  sim_block : list byte
}.

#[global] Instance Sim_environment : Environment Sim := {|
  now s :=
    (sim_clock s,
     mkSim (sim_clock s + sim_tick s) (sim_tick s) (sim_connected s)
           (sim_state_script s) (sim_probe_script s) (sim_handshake_script s)
           (sim_block s));
  get_connected s :=
    match sim_state_script s with
    | [] => (Ok (sim_connected s), s)
    | r :: rest =>
        (r, mkSim (sim_clock s) (sim_tick s) (sim_connected s) rest
                  (sim_probe_script s) (sim_handshake_script s) (sim_block s))
    end;
  create_connection _ _ _ s :=
    match sim_probe_script s with
    | [] => (Ok (), s)
    | r :: rest =>
        (r, mkSim (sim_clock s) (sim_tick s) (sim_connected s)
                  (sim_state_script s) rest (sim_handshake_script s) (sim_block s))
    end;
  client_connect _ _ _ _ s :=
    match sim_handshake_script s with
    | [] =>
        (Ok (), mkSim (sim_clock s) (sim_tick s) true (sim_state_script s)
                      (sim_probe_script s) [] (sim_block s))
    | r :: rest =>
        (r, mkSim (sim_clock s) (sim_tick s)
                  (match r with Ok _ => true | Raise _ => sim_connected s end)
                  (sim_state_script s) (sim_probe_script s) rest (sim_block s))
    end;
  db_read _ start amount s :=
    if sim_connected s
    then (Ok (take (Z.to_nat amount) (drop (Z.to_nat start) (sim_block s))), s)
    else (Raise TransportError, s);
  db_write _ start data s :=
    if sim_connected s
    then (Ok (), mkSim (sim_clock s) (sim_tick s) true (sim_state_script s)
                       (sim_probe_script s) (sim_handshake_script s)
                       (take (Z.to_nat start) (sim_block s) ++ data
                        ++ drop (Z.to_nat start + length data) (sim_block s)))
    else (Raise TransportError, s)
|}.

(** The connection of [examples/example.py]. *)
Definition example_connection : PLCConnection :=
  mkPLCConnection "127.0.0.1" 1 0 1 102
                  (S754_finite false 6755399441055744 (- 52)).

(** A manager over the sample record, with one subscriber, facing a
    disconnected PLC that holds seven bytes. *)
Definition sim_world (state probe handshake : list _) : World Sim :=
  mkWorld (mkSim 1000000 10 false state probe handshake
                 [x41; x20; x00; x00; x00; x2a; x00])
          (subscribe sample_record).2 [].

(** A world whose clock stands still at five seconds. *)
Definition frozen_world : World Sim :=
  mkWorld (mkSim 5000000 0 false [] [] [] []) (subscribe sample_record).2 [].

(** One pass of [notify_subscribers] over one queue. *)
Definition notified (q : Queue) : Queue :=
  if (0 <? maxsize q)%nat && (maxsize q <=? length (items q))%nat then q
  else mkQueue (maxsize q) (items q ++ [InstanceRef]).

(** Counting events of one kind in a trace. *)
Fixpoint count_events (p : event -> bool) (tr : list event) : nat :=
  match tr with
  | [] => 0
  | e :: rest => ((if p e then 1 else 0) + count_events p rest)%nat
  end.

Definition is_connect_call (e : event) : bool :=
  match e with CallConnect => true | _ => false end.

Definition is_db_read (e : event) : bool :=
  match e with DbRead _ _ _ => true | _ => false end.

Definition is_db_write (e : event) : bool :=
  match e with DbWrite _ _ _ => true | _ => false end.

(** The events one run of [connect] can leave after its entry. *)
Definition is_session_event (e : event) : bool :=
  match e with
  | GetConnected | CreateConnection | ClientConnect | CallLater _ => true
  | _ => false
  end.

(** The write path as the specification words it: encode, then the
    connectivity check of [read] (a failing state check counts as not
    connected) with a single [connect] attempt, then the block write. *)
Definition write_as_claimed {Env : Type} `{Environment Env}
  (self : PLCConnection) : M Env bool :=
  new_bytes ← store_to_bytes;
  state ← try (emit GetConnected;; call get_connected);
  let connected := match state with Ok b => b | Raise _ => false end in
  skip ←
    (if negb connected then ok ← Connection.connect self; mret (negb ok)
     else mret false);
  if skip : bool then mret false
  else
    sent ← try (emit (DbWrite (db_number self) 0 new_bytes);;
                call (db_write (db_number self) 0 new_bytes));
    match sent with
    | Raise _ => mret false
    | Ok _ =>
        t ← clock;
        last_connected_setter t;;
        mret true
    end.

(** The PLC answers the first state check with an error. *)
Definition flaky_world : World Sim := sim_world [Raise TransportError] [] [].

(** The first TCP probe fails, the second one goes through. *)
Definition second_chance_world : World Sim := sim_world [] [Raise TransportError] [].

(** * More of data.py *)

(** Python's [==] on numbers.  Two floats are compared as binary64
    data in canonical form ([nan] equals nothing, the two zeros are
    equal); an [int] and a [float] are compared exactly. *)
Definition py_eq (a b : pyval) : bool :=
  let mixed (n : Z) (x : spec_float) :=
    match x with
    | S754_zero _ => n =? 0
    | S754_finite s m e =>
        let k := if s then - n else n in
        if 0 <=? e then k =? Z.pos m * 2 ^ e
        else (Z.pos m mod 2 ^ (- e) =? 0) && (k =? Z.pos m / 2 ^ (- e))
    | _ => false
    end in
  match a, b with
  | VInt n, VInt k => n =? k
  | VFloat x, VFloat y => SFeqb x y
  | VInt n, VFloat x | VFloat x, VInt n => mixed n x
  end.

(** The loop of [set_data] over the keyword arguments; [processed]
    tells whether a value has been assigned.  An exception of [coerce]
    leaves the assignments made so far in place. *)
Fixpoint set_data_loop (d : PLCData) (kwargs : list (string * pyval))
  (processed : bool) : result bool * PLCData :=
  match kwargs with
  | [] => (Ok processed, d)
  | (key, value) :: rest =>
      match od_get (_fields d) key with
      | None => set_data_loop d rest processed
      | Some field =>
          if negb (settable field) then set_data_loop d rest processed
          else
            match coerce field value with
            | Raise e => (Raise e, d)
            | Ok coerced =>
                if py_eq (getattr d key field) coerced
                then set_data_loop d rest processed
                else
                  match setattr d key field value with
                  | Ok d' => set_data_loop d' rest true
                  | Raise e => (Raise e, d)
                  end
            end
      end
  end.

Definition set_data (d : PLCData) (kwargs : list (string * pyval))
  : result unit * PLCData :=
  match set_data_loop d kwargs false with
  | (Ok true, d') => (Ok (), notify_subscribers d')
  | (Ok false, d') => (Ok (), d')
  | (Raise e, d') => (Raise e, d')
  end.

(** Every field has a value, and a legal one. *)
Definition populated (d : PLCData) : Prop :=
  Forall (fun '(name, f) =>
            exists v, _values d !! name = Some v /\ stored_value f v)
         (_fields d).

(** What [set_data] does with a keyword argument that changes nothing:
    the name is no field, the field is not settable (the value is then
    not even coerced), or the coerced value equals the current one. *)
Definition leaves_alone (d : PLCData) (key : string) (value : pyval) : Prop :=
  match od_get (_fields d) key with
  | None => True
  | Some f =>
      settable f = false
      \/ exists c, coerce f value = Ok c /\ py_eq (getattr d key f) c = true
  end.

(** How many of [n] notifications a queue takes in: all of them when
    it is unbounded ([maxsize] 0), else as many as it has room for. *)
Definition taken_in (q : Queue) (n : nat) : nat :=
  if (maxsize q =? 0)%nat then n
  else Nat.min n (maxsize q - length (items q)).

(** The liveness flag of a record when the clock reads [t]. *)
Definition liveness_at (d : PLCData) (t : Z) : bool :=
  match _last_connected d with
  | None => false
  | Some last => t - last <=? IS_CONNECTED_TIMEOUT * 1000000
  end.

(** The outside world after one evaluation of [is_connected]: the clock
    is read only when a timestamp is recorded. *)
Definition after_check {Env : Type} `{Environment Env} (d : PLCData) (e : Env) : Env :=
  match _last_connected d with
  | None => e
  | Some _ => (now e).2
  end.

(** * Properties *)

(** ** Sample runs *)

Example bool_write_sets_bit :
  write (PLCBoolField 1 3 false false) [x00; x01] (VInt 1) = Ok [x00; x09].
Proof. reflexivity. Qed.

Example word_write_clamps :
  write (PLCWordField 0 0 false false) [x00; x00; xff] (VInt 100000)
  = Ok [xff; xff; xff].
Proof. reflexivity. Qed.

Example word_read_signed :
  read (PLCWordField 1 0 true false) [x00; xff; xfe] (VInt 0) = Ok (VInt (- 2)).
Proof. reflexivity. Qed.

Example real_write_one_and_a_half :
  write (PLCRealField 0 (S754_zero false) false) [x00; x00; x00; x00]
        (VFloat (S754_finite false 6755399441055744 (- 52)))
  = Ok [x3f; xc0; x00; x00].
Proof. vm_compute. reflexivity. Qed.

Example real_read_one_and_a_half :
  read (PLCRealField 0 (S754_zero false) false) [x3f; xc0; x00; x00] (VInt 0)
  = Ok (VFloat (S754_finite false 6755399441055744 (- 52))).
Proof. vm_compute. reflexivity. Qed.

(** Outside the data model: a negative byte offset makes the slice
    assignment insert, and the buffer grows. *)
Example negative_offset_grows_buffer :
  write (PLCWordField (- 1) 0 false false) [x00; x00; x00; x00] (VInt 258)
  = Ok [x00; x00; x00; x01; x02; x00].
Proof. reflexivity. Qed.

Example bit_offset_8_raises :
  write (PLCBoolField 0 8 false false) [x00; x00] (VInt 1) = Raise ValueError.
Proof. reflexivity. Qed.

Example assignment_clamps :
  (d ← setattr sample_record "pressure" (PLCWordField 4 0 false false) (VInt 100000);
   Ok (getattr d "pressure" (PLCWordField 4 0 false false)))
  = Ok (VInt 65535).
Proof. vm_compute. reflexivity. Qed.

Example example_buffer_size : buffer_size MyPLCData = 7.
Proof. reflexivity. Qed.

Example example_status_encoding :
  (d ← PLCData_init MyPLCData [("status", VInt 1)]; to_bytes d)
  = Ok [x00; x00; x00; x00; x00; x00; x01].
Proof. vm_compute. reflexivity. Qed.

(** ** Bytes and big-endian integers *)

Lemma byte_to_Z_range (b : byte) : 0 <= byte_to_Z b < 256.
Proof.
  unfold byte_to_Z. pose proof (Byte.to_N_bounded b). lia.
Qed.

Lemma byte_to_Z_inj (a b : byte) : byte_to_Z a = byte_to_Z b -> a = b.
Proof.
  unfold byte_to_Z. intros E. apply N2Z.inj in E.
  pose proof (Byte.of_to_N a) as Ha. rewrite E, Byte.of_to_N in Ha. congruence.
Qed.

Lemma byte_of_Z_ok (z : Z) :
  0 <= z < 256 -> exists b, byte_of_Z z = Ok b /\ byte_to_Z b = z.
Proof.
  intros Hz. unfold byte_of_Z.
  destruct (Z.ltb_spec z 0); [lia|].
  destruct (Byte.of_N (Z.to_N z)) as [b|] eqn:E.
  - exists b. split; [done|]. unfold byte_to_Z.
    apply Byte.to_of_N in E. rewrite E. lia.
  - apply Byte.of_N_None_iff in E. lia.
Qed.

Lemma byte_of_Z_inv (z : Z) (b : byte) :
  byte_of_Z z = Ok b -> byte_to_Z b = z /\ 0 <= z < 256.
Proof.
  unfold byte_of_Z. destruct (Z.ltb_spec z 0); [done|].
  destruct (Byte.of_N (Z.to_N z)) as [b'|] eqn:E; [|done].
  intros [= <-]. apply Byte.to_of_N in E.
  pose proof (Byte.to_N_bounded b'). unfold byte_to_Z. lia.
Qed.

Lemma byte_wrap_to_Z (z : Z) : byte_to_Z (byte_wrap z) = z mod 256.
Proof.
  unfold byte_wrap. pose proof (Z.mod_pos_bound z 256 eq_refl) as Hm.
  destruct (Byte.of_N (Z.to_N (z mod 256))) as [b|] eqn:E.
  - apply Byte.to_of_N in E. unfold byte_to_Z. rewrite E. lia.
  - apply Byte.of_N_None_iff in E. lia.
Qed.

Lemma be_bytes_length (n : nat) (u : Z) : length (be_bytes n u) = n.
Proof. induction n as [|n IH]; simpl; [done|]. by rewrite IH. Qed.

Lemma be_fold_bytes (n : nat) (u acc : Z) :
  fold_left (fun a b => a * 256 + byte_to_Z b) (be_bytes n u) acc
  = acc * 256 ^ Z.of_nat n + u mod 256 ^ Z.of_nat n.
Proof.
  revert acc. induction n as [|n IH]; intros acc.
  - simpl. rewrite Z.mod_1_r. lia.
  - cbn [be_bytes fold_left]. rewrite IH, byte_wrap_to_Z.
    rewrite Nat2Z.inj_succ, Z.pow_succ_r by lia.
    assert (Hp : 0 < 256 ^ Z.of_nat n) by (apply Z.pow_pos_nonneg; lia).
    rewrite (Z.mul_comm 256 (256 ^ Z.of_nat n)).
    rewrite (Z.rem_mul_r u (256 ^ Z.of_nat n) 256) by lia.
    lia.
Qed.

Lemma be_value_bytes (n : nat) (u : Z) :
  be_value (be_bytes n u) = u mod 256 ^ Z.of_nat n.
Proof. unfold be_value. rewrite be_fold_bytes. lia. Qed.

(** Decide the integer comparisons a goal branches on. *)
Ltac zcases :=
  repeat match goal with
    | |- context [?a <=? ?b] => destruct (Z.leb_spec a b); try lia
    | |- context [?a <? ?b] => destruct (Z.ltb_spec a b); try lia
    | |- context [?a =? ?b] => destruct (Z.eqb_spec a b); try lia
    end;
  cbn [andb orb negb]; try done.

Lemma mod_65536_neg (v : Z) : - 65536 <= v < 0 -> v mod 65536 = v + 65536.
Proof. intros Hv. symmetry. apply (Z.mod_unique v 65536 (- 1)); lia. Qed.

Lemma int_codec (signed : bool) (v : Z) :
  (if signed then - 32768 <= v <= 32767 else 0 <= v <= 65535) ->
  exists bs, int_to_bytes 2 signed v = Ok bs /\ length bs = 2%nat
             /\ int_from_bytes signed bs = v.
Proof.
  intros Hv. unfold int_to_bytes. change (8 * Z.of_nat 2) with 16.
  change (2 ^ (16 - 1)) with 32768. change (2 ^ 16) with 65536.
  destruct signed; zcases.
  - eexists. split; [done|]. split; [by rewrite be_bytes_length|].
    unfold int_from_bytes, blen. rewrite be_value_bytes, be_bytes_length.
    cbn [be_bytes]. change (8 * Z.of_nat 2) with 16.
    change (256 ^ Z.of_nat 2) with 65536.
    change (2 ^ (16 - 1)) with 32768. change (2 ^ 16) with 65536.
    rewrite Z.mod_mod by lia. cbn [andb].
    destruct (Z.neg_nonneg_cases v) as [Hn|Hn].
    + rewrite mod_65536_neg by lia. zcases.
    + rewrite Z.mod_small by lia. zcases.
  - eexists. split; [done|]. split; [by rewrite be_bytes_length|].
    unfold int_from_bytes. rewrite be_value_bytes. cbn [be_bytes andb].
    change (256 ^ Z.of_nat 2) with 65536. by rewrite Z.mod_small by lia.
Qed.

(** ** Indexing and slicing *)

Lemma py_index_in (n i : Z) : 0 <= i < n -> py_index n i = Ok (Z.to_nat i).
Proof. intros Hi. unfold py_index. zcases. Qed.

Lemma getitem_in (l : list byte) (i : Z) :
  0 <= i < blen l ->
  exists b, l !! Z.to_nat i = Some b /\ getitem l i = Ok b.
Proof.
  intros Hi. unfold getitem. rewrite py_index_in by done. cbn.
  destruct (lookup_lt_is_Some_2 l (Z.to_nat i)) as [b Hb].
  { unfold blen in Hi. lia. }
  exists b. by rewrite Hb.
Qed.

Lemma getslice_in (l : list byte) (a k : Z) :
  0 <= a -> 0 <= k -> a + k <= blen l ->
  getslice l a (a + k) = take (Z.to_nat k) (drop (Z.to_nat a) l).
Proof.
  intros Ha Hk Hl. unfold getslice, slice_bound. zcases.
  do 2 f_equal; lia.
Qed.

Lemma getslice_short (l : list byte) (a k : Z) :
  0 < k -> blen l < a + k -> blen (getslice l a (a + k)) < k.
Proof.
  intros Hk Hl. unfold getslice, slice_bound, blen in *.
  rewrite length_take, length_drop. zcases.
Qed.

Lemma setslice_in (l bs : list byte) (a k : Z) :
  0 <= a -> 0 <= k -> a + k <= blen l ->
  setslice l a (a + k) bs
  = take (Z.to_nat a) l ++ bs ++ drop (Z.to_nat a + Z.to_nat k) l.
Proof.
  intros Ha Hk Hl. unfold setslice, slice_bound. zcases.
  do 3 f_equal; lia.
Qed.

Section Slices.
Variables (l bs : list byte) (a k : Z).
Hypothesis Ha : 0 <= a.
Hypothesis Hk : Z.of_nat (length bs) = k.
Hypothesis Hl : a + k <= blen l.

Lemma setslice_length : length (setslice l a (a + k) bs) = length l.
Proof using Ha Hk Hl.
  rewrite setslice_in by lia. unfold blen in Hl.
  rewrite !length_app, length_take, length_drop. lia.
Qed.

Lemma setslice_outside (i : nat) :
  (Z.of_nat i < a \/ a + k <= Z.of_nat i) ->
  setslice l a (a + k) bs !! i = l !! i.
Proof using Ha Hk Hl.
  intros Hi. rewrite setslice_in by lia. unfold blen in Hl.
  destruct Hi as [Hi|Hi].
  - rewrite lookup_app_l by (rewrite length_take; lia).
    apply lookup_take_lt. lia.
  - rewrite lookup_app_r by (rewrite length_take; lia).
    rewrite lookup_app_r by (rewrite length_take; lia).
    rewrite lookup_drop, length_take. f_equal. lia.
Qed.

Lemma getslice_setslice : getslice (setslice l a (a + k) bs) a (a + k) = bs.
Proof using Ha Hk Hl.
  rewrite getslice_in; [|lia|lia|unfold blen; rewrite setslice_length; done].
  rewrite setslice_in by lia. unfold blen in Hl.
  rewrite drop_app_length' by (rewrite length_take; lia).
  apply take_app_length'. lia.
Qed.
End Slices.

Lemma getslice_ext (l l' : list byte) (a k : Z) :
  0 <= a -> 0 <= k -> a + k <= blen l -> length l' = length l ->
  (forall i : nat, a <= Z.of_nat i < a + k -> l' !! i = l !! i) ->
  getslice l' a (a + k) = getslice l a (a + k).
Proof.
  intros Ha Hk Hl Hlen Hext.
  rewrite !getslice_in by (unfold blen in *; lia).
  apply list_eq. intros i.
  destruct (decide (i < Z.to_nat k)%nat) as [Hi|Hi].
  - rewrite !lookup_take_lt, !lookup_drop by done. apply Hext. lia.
  - rewrite !lookup_take_ge by lia. done.
Qed.

(** ** One bit of one byte *)

Lemma small_of_bits (z : Z) :
  0 <= z -> (forall k, 8 <= k -> Z.testbit z k = false) -> z < 256.
Proof.
  intros Hz Hhigh.
  assert (E : z mod 2 ^ 8 = z).
  { apply Z.bits_inj'. intros k Hk.
    destruct (Z.lt_ge_cases k 8).
    - by rewrite Z.mod_pow2_bits_low.
    - rewrite Z.mod_pow2_bits_high by lia. symmetry. by apply Hhigh. }
  pose proof (Z.mod_pos_bound z (2 ^ 8) eq_refl). change (2 ^ 8) with 256 in *. lia.
Qed.

Lemma byte_bits_high (b : byte) (k : Z) :
  8 <= k -> Z.testbit (byte_to_Z b) k = false.
Proof.
  intros Hk. pose proof (byte_to_Z_range b).
  rewrite <- (Z.mod_small (byte_to_Z b) (2 ^ 8)) by (change (2 ^ 8) with 256; lia).
  apply Z.mod_pow2_bits_high. lia.
Qed.

Lemma testbit_255 (k : Z) : 0 <= k -> Z.testbit 255 k = (k <? 8).
Proof.
  intros Hk. change 255 with (Z.ones 8). rewrite Z.testbit_ones_nonneg by lia. done.
Qed.

Lemma bit_written_bits (old bit : Z) (v : bool) (k : Z) :
  0 <= bit -> 0 <= k -> (forall j, 8 <= j -> Z.testbit old j = false) ->
  Z.testbit (bit_written old bit v) k = if k =? bit then v else Z.testbit old k.
Proof.
  intros Hb Hk Hhigh. unfold bit_written. rewrite Z.shiftl_1_l.
  destruct v.
  - rewrite Z.lor_spec, Z.pow2_bits_eqb, (Z.eqb_sym bit k) by lia.
    destruct (Z.eqb_spec k bit); cbn.
    + by rewrite orb_true_r.
    + by rewrite orb_false_r.
  - rewrite !Z.land_spec, Z.lnot_spec, Z.pow2_bits_eqb, testbit_255 by lia.
    rewrite (Z.eqb_sym bit k).
    destruct (Z.eqb_spec k bit); cbn.
    + by rewrite !andb_false_r.
    + destruct (Z.ltb_spec k 8); cbn.
      * by rewrite andb_true_r.
      * rewrite Hhigh by lia. done.
Qed.

Lemma bit_written_range (old bit : Z) (v : bool) :
  0 <= old < 256 -> 0 <= bit <= 7 -> 0 <= bit_written old bit v < 256.
Proof.
  intros Hold Hbit.
  assert (Hhigh : forall j, 8 <= j -> Z.testbit old j = false).
  { intros j Hj. rewrite <- (Z.mod_small old (2 ^ 8)) by (change (2 ^ 8) with 256; lia).
    apply Z.mod_pow2_bits_high. lia. }
  assert (H0 : 0 <= bit_written old bit v).
  { unfold bit_written. destruct v.
    - apply Z.lor_nonneg. split; [lia|]. apply Z.shiftl_nonneg. lia.
    - apply Z.land_nonneg. left. lia. }
  split; [done|]. apply small_of_bits; [done|].
  intros k Hk. rewrite bit_written_bits by (done || lia).
  destruct (Z.eqb_spec k bit); [lia|]. by apply Hhigh.
Qed.

(** ** Bit fields *)

Lemma bind_Ok {A B : Type} (a : A) (k : A -> result B) : (x ← Ok a; k x) = k a.
Proof. reflexivity. Qed.


Lemma write_bool_ok (off bit : Z) (d s : bool) (buf : list byte) (v : pyval) :
  0 <= off < blen buf -> 0 <= bit <= 7 ->
  exists old new,
    buf !! Z.to_nat off = Some old
    /\ byte_to_Z new = bit_written (byte_to_Z old) bit (py_bool v)
    /\ write (PLCBoolField off bit d s) buf v = Ok (<[Z.to_nat off := new]> buf).
Proof.
  intros Hoff Hbit.
  destruct (getitem_in buf off Hoff) as (old & Hold & Hget).
  destruct (byte_of_Z_ok (bit_written (byte_to_Z old) bit (py_bool v)))
    as (new & Hnew & Hval).
  { apply bit_written_range; [apply byte_to_Z_range | done]. }
  exists old, new. split; [done|]. split; [done|].
  unfold write, coerce, py_shiftl. cbn.
  destruct (Z.ltb_spec bit 0); [lia|]. cbn. rewrite Hget. cbn.
  unfold setitem. rewrite py_index_in by done. cbn.
  unfold bit_written in Hnew.
  destruct (py_bool v); cbn; rewrite Hnew; done.
Qed.

(** Writing two bits of one byte, in either order. *)
Lemma write_bool_twice (off bit1 bit2 : Z) (d1 s1 d2 s2 : bool)
  (buf : list byte) (v1 v2 : pyval) :
  0 <= off < blen buf -> 0 <= bit1 <= 7 -> 0 <= bit2 <= 7 ->
  exists old new,
    buf !! Z.to_nat off = Some old
    /\ (forall k, 0 <= k ->
          Z.testbit (byte_to_Z new) k
          = if k =? bit2 then py_bool v2
            else if k =? bit1 then py_bool v1
            else Z.testbit (byte_to_Z old) k)
    /\ (b ← write (PLCBoolField off bit1 d1 s1) buf v1;
        write (PLCBoolField off bit2 d2 s2) b v2)
       = Ok (<[Z.to_nat off := new]> buf).
Proof.
  intros Hoff Hb1 Hb2.
  destruct (write_bool_ok off bit1 d1 s1 buf v1 Hoff Hb1) as (old & mid & Hold & Hmid & ->).
  assert (Hlen : 0 <= off < blen (<[Z.to_nat off := mid]> buf)).
  { unfold blen in *. by rewrite length_insert. }
  destruct (write_bool_ok off bit2 d2 s2 _ v2 Hlen Hb2) as (mid' & new & Hmid' & Hnew & Hw).
  rewrite list_lookup_insert_eq in Hmid' by (unfold blen in Hoff; lia).
  injection Hmid' as <-.
  exists old, new. split; [done|]. split.
  - intros k Hk. rewrite Hnew, bit_written_bits, Hmid, bit_written_bits;
      try done; try lia; try apply byte_bits_high.
  - rewrite bind_Ok, Hw. by rewrite list_insert_insert_eq.
Qed.

Lemma write_bool_isolated (off bit : Z) (d s : bool) (buf : list byte) (v : pyval) :
  0 <= off < blen buf -> 0 <= bit <= 7 ->
  exists buf' old new,
    write (PLCBoolField off bit d s) buf v = Ok buf'
    /\ length buf' = length buf
    /\ (forall i : nat, i <> Z.to_nat off -> buf' !! i = buf !! i)
    /\ buf !! Z.to_nat off = Some old
    /\ buf' !! Z.to_nat off = Some new
    /\ (forall k, 0 <= k -> k <> bit ->
          Z.testbit (byte_to_Z new) k = Z.testbit (byte_to_Z old) k)
    /\ Z.testbit (byte_to_Z new) bit = py_bool v.
Proof.
  intros Hoff Hbit.
  destruct (write_bool_ok off bit d s buf v Hoff Hbit) as (old & new & Hold & Hnew & Hw).
  exists (<[Z.to_nat off := new]> buf), old, new.
  assert (Hhigh : forall j, 8 <= j -> Z.testbit (byte_to_Z old) j = false)
    by (intros; by apply byte_bits_high).
  repeat split; try done.
  - by rewrite length_insert.
  - intros i Hi. by rewrite list_lookup_insert_ne.
  - apply list_lookup_insert_eq. unfold blen in Hoff. lia.
  - intros k Hk Hne. rewrite Hnew, bit_written_bits by (done || lia).
    destruct (Z.eqb_spec k bit); [lia|done].
  - rewrite Hnew, bit_written_bits by (done || lia). by rewrite Z.eqb_refl.
Qed.

Lemma write_bool_commute (off bit1 bit2 : Z) (d1 s1 d2 s2 : bool)
  (buf : list byte) (v1 v2 : pyval) :
  0 <= off < blen buf -> 0 <= bit1 <= 7 -> 0 <= bit2 <= 7 -> bit1 <> bit2 ->
  exists final,
    (b ← write (PLCBoolField off bit1 d1 s1) buf v1;
     write (PLCBoolField off bit2 d2 s2) b v2) = Ok final
    /\ (b ← write (PLCBoolField off bit2 d2 s2) buf v2;
        write (PLCBoolField off bit1 d1 s1) b v1) = Ok final.
Proof.
  intros Hoff Hb1 Hb2 Hne.
  destruct (write_bool_twice off bit1 bit2 d1 s1 d2 s2 buf v1 v2)
    as (old & new & Hold & Hnew & H12); try done.
  destruct (write_bool_twice off bit2 bit1 d2 s2 d1 s1 buf v2 v1)
    as (old' & new' & Hold' & Hnew' & H21); try done.
  exists (<[Z.to_nat off := new]> buf). split; [done|].
  rewrite H21. do 2 f_equal. apply byte_to_Z_inj, Z.bits_inj'.
  intros k Hk. rewrite Hnew, Hnew' by done.
  assert (old' = old) as -> by congruence.
  destruct (Z.eqb_spec k bit1), (Z.eqb_spec k bit2); try done. lia.
Qed.

(** Whatever the offsets are: a [write] that returns has touched one
    bit of the byte that [buffer[byte_offset]] denotes. *)
Lemma write_bool_returns (off bit : Z) (d s : bool) (buf buf' : list byte)
  (v : pyval) :
  write (PLCBoolField off bit d s) buf v = Ok buf' ->
  exists (j : nat) (old new : byte),
    py_index (blen buf) off = Ok j
    /\ buf !! j = Some old
    /\ buf' = <[j := new]> buf
    /\ (forall k, 0 <= k -> k <> bit ->
          Z.testbit (byte_to_Z new) k = Z.testbit (byte_to_Z old) k).
Proof.
  unfold write, coerce, py_shiftl, getitem, setitem. rewrite bind_Ok.
  destruct (Z.ltb_spec bit 0) as [|Hbit]; [done|]. rewrite bind_Ok.
  destruct (py_index (blen buf) off) as [j|]; [|done]. rewrite !bind_Ok.
  destruct (buf !! j) as [old|] eqn:Hold; [|done]. rewrite bind_Ok.
  intros Hw.
  assert (Hset : exists new,
             byte_of_Z (bit_written (byte_to_Z old) bit (py_bool v)) = Ok new
             /\ buf' = <[j := new]> buf).
  { unfold bit_written.
    destruct (py_bool v); cbn in Hw;
      (destruct (byte_of_Z _) as [new|]; [|done]);
      rewrite bind_Ok in Hw; injection Hw as <-; eauto. }
  destruct Hset as (new & Hnew & ->). apply byte_of_Z_inv in Hnew as [Hnew _].
  exists j, old, new. repeat split; try done.
  intros k Hk Hne. rewrite Hnew, bit_written_bits; try done.
  - destruct (Z.eqb_spec k bit); [lia|done].
  - intros. by apply byte_bits_high.
Qed.

(** C2.  Bit-field isolation.  For a bit field (byte offset inside the
    buffer, bit offset 0..7) [write] succeeds, keeps the length of the
    buffer, keeps every other byte, keeps the other seven bits of its
    own byte and stores the truth value in its own bit.  Hence two bit
    fields that share a byte and differ in their bit offsets can be
    written in either order: both orders end in the same buffer.  For
    arbitrary offsets, a [write] that returns at all has changed at
    most its own bit of the byte it indexes. *)
Theorem bit_field_isolation :
  (forall (off bit : Z) (d s : bool) (buf : list byte) (v : pyval),
     0 <= off < blen buf -> 0 <= bit <= 7 ->
     exists buf' old new,
       write (PLCBoolField off bit d s) buf v = Ok buf'
       /\ length buf' = length buf
       /\ (forall i : nat, i <> Z.to_nat off -> buf' !! i = buf !! i)
       /\ buf !! Z.to_nat off = Some old
       /\ buf' !! Z.to_nat off = Some new
       /\ (forall k, 0 <= k -> k <> bit ->
             Z.testbit (byte_to_Z new) k = Z.testbit (byte_to_Z old) k)
       /\ Z.testbit (byte_to_Z new) bit = py_bool v)
  /\
  (forall (off bit1 bit2 : Z) (d1 s1 d2 s2 : bool) (buf : list byte)
          (v1 v2 : pyval),
     0 <= off < blen buf -> 0 <= bit1 <= 7 -> 0 <= bit2 <= 7 -> bit1 <> bit2 ->
     exists final,
       (b ← write (PLCBoolField off bit1 d1 s1) buf v1;
        write (PLCBoolField off bit2 d2 s2) b v2) = Ok final
       /\ (b ← write (PLCBoolField off bit2 d2 s2) buf v2;
           write (PLCBoolField off bit1 d1 s1) b v1) = Ok final)
  /\
  (forall (off bit : Z) (d s : bool) (buf buf' : list byte) (v : pyval),
     write (PLCBoolField off bit d s) buf v = Ok buf' ->
     exists (j : nat) (old new : byte),
       py_index (blen buf) off = Ok j
       /\ buf !! j = Some old
       /\ buf' = <[j := new]> buf
       /\ (forall k, 0 <= k -> k <> bit ->
             Z.testbit (byte_to_Z new) k = Z.testbit (byte_to_Z old) k)).
Proof.
  split; [|split].
  - apply write_bool_isolated.
  - apply write_bool_commute.
  - apply write_bool_returns.
Qed.

Lemma bit_field_isolation_witness :
  exists final,
    (b ← write (PLCBoolField 0 3 false false) [x81] (VInt 1);
     write (PLCBoolField 0 5 false false) b (VInt 0)) = Ok final
    /\ (b ← write (PLCBoolField 0 5 false false) [x81] (VInt 0);
        write (PLCBoolField 0 3 false false) b (VInt 1)) = Ok final.
Proof.
  apply (proj1 (proj2 bit_field_isolation) 0 3 5 false false false false [x81]
           (VInt 1) (VInt 0)); unfold blen; cbn [length]; lia.
Defined.

(** C3.  Clamping.  On an integer the coercion of a 16-bit field never
    raises and never wraps: an unsigned field sends every value above
    65535 to 65535 and every negative value to 0, a signed field sends
    every value above 32767 to 32767 and every value below -32768 to
    -32768, and values inside the range are kept.  So 100000 becomes
    65535 and -5 becomes 0 (unsigned), and 40000 becomes 32767 (signed). *)
Theorem word_coerce_clamps (off d : Z) (s : bool) (v : Z) :
  let unsigned := PLCWordField off d false s in
  let signed := PLCWordField off d true s in
  (65535 < v -> coerce unsigned (VInt v) = Ok (VInt 65535))
  /\ (v < 0 -> coerce unsigned (VInt v) = Ok (VInt 0))
  /\ (0 <= v <= 65535 -> coerce unsigned (VInt v) = Ok (VInt v))
  /\ (32767 < v -> coerce signed (VInt v) = Ok (VInt 32767))
  /\ (v < - 32768 -> coerce signed (VInt v) = Ok (VInt (- 32768)))
  /\ (- 32768 <= v <= 32767 -> coerce signed (VInt v) = Ok (VInt v))
  /\ coerce unsigned (VInt 100000) = Ok (VInt 65535)
  /\ coerce unsigned (VInt (- 5)) = Ok (VInt 0)
  /\ coerce signed (VInt 40000) = Ok (VInt 32767).
Proof.
  intros unsigned signed. subst unsigned signed.
  unfold coerce, py_int, _clamp, mbind, result_bind.
  repeat split; try reflexivity; intros Hv; do 2 f_equal; lia.
Qed.

Lemma word_coerce_clamps_witness :
  65535 < 70000
  /\ coerce (PLCWordField 4 0 false false) (VInt 70000) = Ok (VInt 65535).
Proof.
  split; [lia|].
  apply (proj1 (word_coerce_clamps 4 0 false 70000)). lia.
Defined.

(** C4.  Truncated buffers.  Whatever the field kind and the current
    value, reading from a buffer shorter than [byte_offset + size]
    (one byte for a bit field, two for a word, four for a real) returns
    the current value and raises nothing. *)
Theorem read_truncated_buffer (f : PLCField) (data : list byte) (current : pyval) :
  blen data < byte_offset f + size f -> read f data current = Ok current.
Proof.
  intros Hshort. destruct f as [off bit d s|off d sg s|off d s]; cbn in *.
  - zcases.
  - pose proof (getslice_short data off 2 ltac:(lia) Hshort). zcases.
  - pose proof (getslice_short data off 4 ltac:(lia) Hshort). zcases.
Qed.

Lemma read_truncated_buffer_witness :
  read (PLCWordField 4 0 false false) [x01; x02; x03; x04; x05] (VInt 7)
  = Ok (VInt 7).
Proof.
  apply (read_truncated_buffer (PLCWordField 4 0 false false)).
  unfold blen. cbn [length byte_offset size]. lia.
Defined.

(** ** binary32 on the wire *)

Lemma digits2_bounds (m : positive) :
  2 ^ (Z.pos (digits2_pos m) - 1) <= Z.pos m < 2 ^ Z.pos (digits2_pos m).
Proof.
  induction m as [m IH|m IH|]; cbn [digits2_pos].
  - rewrite Pos2Z.inj_succ.
    replace (Z.succ (Z.pos (digits2_pos m)) - 1) with (Z.succ (Z.pos (digits2_pos m) - 1)) by lia.
    rewrite !Z.pow_succ_r by lia. lia.
  - rewrite Pos2Z.inj_succ.
    replace (Z.succ (Z.pos (digits2_pos m)) - 1) with (Z.succ (Z.pos (digits2_pos m) - 1)) by lia.
    rewrite !Z.pow_succ_r by lia. lia.
  - cbn. lia.
Qed.

Lemma digits2_le (m : positive) (n : Z) :
  0 <= n -> Z.pos m < 2 ^ n -> Z.pos (digits2_pos m) <= n.
Proof.
  intros Hn Hm. pose proof (digits2_bounds m) as [Hlo _].
  destruct (Z.le_gt_cases (Z.pos (digits2_pos m)) n) as [|Hgt]; [done|].
  assert (2 ^ n <= 2 ^ (Z.pos (digits2_pos m) - 1)) by (apply Z.pow_le_mono_r; lia).
  lia.
Qed.

Lemma digits2_ge (m : positive) (n : Z) :
  2 ^ n <= Z.pos m -> n < Z.pos (digits2_pos m).
Proof.
  intros Hm. pose proof (digits2_bounds m) as [_ Hhi].
  destruct (Z.lt_ge_cases n (Z.pos (digits2_pos m))) as [|Hge]; [done|].
  assert (2 ^ Z.pos (digits2_pos m) <= 2 ^ n) by (apply Z.pow_le_mono_r; lia).
  lia.
Qed.

(** What validity says about a finite binary32. *)
Lemma valid32_finite (s : bool) (m : positive) (e : Z) :
  valid_binary 24 128 (S754_finite s m e) = true ->
  - 149 <= e <= 104
  /\ Z.pos (digits2_pos m) <= 24
  /\ (e = - 149 \/ Z.pos (digits2_pos m) = 24).
Proof.
  cbn [valid_binary]. unfold bounded, canonical_mantissa, fexp.
  change (emin 24 128) with (- 149). change (128 - 24) with 104.
  intros Hv. apply andb_prop in Hv as [Hc He].
  apply Z.eqb_eq in Hc. apply Z.leb_le in He. lia.
Qed.

Lemma sign_bit_range (s : bool) : sign_bit s = 0 \/ sign_bit s = 2147483648.
Proof. destruct s; [right|left]; reflexivity. Qed.

Lemma bits_of_b32_range (y : spec_float) :
  valid_binary 24 128 y = true -> 0 <= bits_of_b32 y < 2 ^ 32.
Proof.
  intros Hv. change (2 ^ 32) with 4294967296.
  destruct y as [s|s| |s m e]; cbn [bits_of_b32].
  - destruct s; cbn; lia.
  - destruct s; cbn; lia.
  - cbn. lia.
  - apply valid32_finite in Hv as (He & Hd & _).
    assert (Hm : Z.pos m < 2 ^ 24).
    { pose proof (digits2_bounds m) as [_ Hhi].
      assert (2 ^ Z.pos (digits2_pos m) <= 2 ^ 24) by (apply Z.pow_le_mono_r; lia). lia. }
    change (2 ^ 24) with 16777216 in Hm. change (2 ^ 23) with 8388608.
    destruct (sign_bit_range s) as [-> | ->]; zcases.
Qed.

Lemma b32_bits_round_trip (y : spec_float) :
  valid_binary 24 128 y = true -> is_nan y = false ->
  b32_of_bits (bits_of_b32 y) = y.
Proof.
  intros Hv Hn. unfold b32_of_bits.
  change (2 ^ 31) with 2147483648. change (2 ^ 23) with 8388608.
  destruct y as [s|s| |s m e]; cbn [bits_of_b32]; [| |done|].
  - destruct s; reflexivity.
  - destruct s; reflexivity.
  - pose proof (valid32_finite s m e Hv) as (He & Hd & Hcase).
    assert (Hm : Z.pos m < 16777216).
    { pose proof (digits2_bounds m) as [_ Hhi].
      assert (2 ^ Z.pos (digits2_pos m) <= 2 ^ 24) by (apply Z.pow_le_mono_r; lia).
      change (2 ^ 24) with 16777216 in *. lia. }
    change (2 ^ 23) with 8388608.
    destruct (Z.ltb_spec (Z.pos m) 8388608) as [Hsub|Hnorm].
    + assert (e = - 149) as ->.
      { destruct Hcase as [|Hd24]; [done|].
        pose proof (digits2_le m 23 ltac:(lia)) as Hd23.
        change (2 ^ 23) with 8388608 in Hd23. lia. }
      assert (Hex : ((sign_bit s + Z.pos m) / 8388608) mod 256 = 0).
      { destruct (sign_bit_range s) as [-> | ->].
        - rewrite Z.div_small by lia. done.
        - rewrite <- (Z.div_unique (2147483648 + Z.pos m) 8388608 256 (Z.pos m)) by lia. done. }
      assert (Hfr : (sign_bit s + Z.pos m) mod 8388608 = Z.pos m).
      { destruct (sign_bit_range s) as [-> | ->].
        - by rewrite Z.mod_small by lia.
        - symmetry. apply (Z.mod_unique _ _ 256); lia. }
      rewrite Hex, Hfr. cbn [Z.eqb]. rewrite Pos2Z.id.
      f_equal. destruct s; cbn; zcases.
    + set (q := if s then 256 else 0).
      assert (Hs : sign_bit s = q * 8388608) by (by destruct s).
      assert (Hq : (q = 0 /\ s = false) \/ (q = 256 /\ s = true))
        by (destruct s; subst q; [right|left]; done).
      rewrite Hs. clearbody q.
      set (u := q * 8388608 + (e + 150) * 8388608 + (Z.pos m - 8388608)).
      assert (Hdiv : u / 8388608 = q + (e + 150)).
      { symmetry. apply (Z.div_unique _ _ _ (Z.pos m - 8388608)); subst u; lia. }
      assert (Hfr : u mod 8388608 = Z.pos m - 8388608).
      { symmetry. apply (Z.mod_unique _ _ (q + (e + 150))); subst u; lia. }
      assert (Hex : (u / 8388608) mod 256 = e + 150).
      { rewrite Hdiv. symmetry.
        destruct Hq as [[-> _]|[-> _]].
        - apply (Z.mod_unique _ _ 0); lia.
        - apply (Z.mod_unique _ _ 1); lia. }
      rewrite Hex, Hfr.
      destruct (Z.eqb_spec (e + 150) 0); [lia|].
      destruct (Z.eqb_spec (e + 150) 255); [lia|].
      replace (Z.pos m - 8388608 + 8388608) with (Z.pos m) by lia.
      rewrite Pos2Z.id. replace (e + 150 - 150) with e by lia.
      f_equal. subst u.
      destruct Hq as [[-> ->]|[-> ->]]; zcases.
Qed.

(** ** binary32 inside binary64 *)

Lemma iter_pos_nat {A : Type} (f : A -> A) (p : positive) (x : A) :
  SpecFloat.iter_pos f p x = Nat.iter (Pos.to_nat p) f x.
Proof.
  revert x. induction p as [p IH|p IH|]; intros x; cbn [SpecFloat.iter_pos].
  - rewrite !IH, Pos2Nat.inj_xI, <- Nat.iter_add, <- Nat.iter_succ_r.
    f_equal. lia.
  - rewrite !IH, Pos2Nat.inj_xO, <- Nat.iter_add. f_equal. lia.
  - reflexivity.
Qed.

Lemma shr_exact (n : nat) (m : positive) :
  Nat.iter n shr_1 (Build_shr_record (Z.pos (Nat.iter n xO m)) false false)
  = Build_shr_record (Z.pos m) false false.
Proof.
  induction n as [|n IH]; [reflexivity|].
  rewrite Nat.iter_succ_r, Nat.iter_succ. cbn [shr_1 orb]. exact IH.
Qed.

Lemma digits2_shifted (n : nat) (m : positive) :
  Z.pos (digits2_pos (Nat.iter n xO m)) = Z.pos (digits2_pos m) + Z.of_nat n.
Proof.
  induction n as [|n IH]; [simpl; lia|].
  rewrite Nat.iter_succ. cbn [digits2_pos]. lia.
Qed.

(** Rounding a mantissa that is already canonical changes nothing. *)
Lemma binary_round_aux_canonical (prec emax : Z) (s : bool) (m : positive) (e : Z) :
  canonical_mantissa prec emax m e = true -> e <= emax - prec ->
  binary_round_aux prec emax s (Z.pos m) e loc_Exact = S754_finite s m e.
Proof.
  unfold canonical_mantissa. intros Hc He. apply Z.eqb_eq in Hc.
  unfold binary_round_aux, shr_fexp. cbn [Zdigits2 shr_record_of_loc].
  rewrite Hc, Z.sub_diag.
  cbn [shr shr_m loc_of_shr_record round_nearest_even shr_record_of_loc Zdigits2].
  rewrite Hc, Z.sub_diag. cbn [shr shr_m].
  destruct (Z.leb_spec e (emax - prec)); [done|lia].
Qed.

(** The binary64 of a finite binary32: the mantissa is shifted up to
    53 digits. *)
Lemma double_of_b32_finite (s : bool) (m : positive) (e : Z) :
  valid_binary 24 128 (S754_finite s m e) = true ->
  exists (p mz : positive),
    Z.pos p = 53 - Z.pos (digits2_pos m)
    /\ Z.pos (digits2_pos mz) = 53
    /\ SpecFloat.iter_pos shr_1 p (Build_shr_record (Z.pos mz) false false)
       = Build_shr_record (Z.pos m) false false
    /\ double_of_b32 (S754_finite s m e) = S754_finite s mz (e - Z.pos p).
Proof.
  intros Hv. apply valid32_finite in Hv as (He & Hd & _).
  pose proof (Pos2Z.is_pos (digits2_pos m)) as Hd0.
  cbn [double_of_b32]. unfold binary_round, shl_align, fexp.
  change (emin 53 1024) with (- 1074).
  rewrite Z.max_l by lia.
  destruct (Z.pos (digits2_pos m) + e - 53 - e) as [|p|p] eqn:Ep; [lia|lia|].
  pose proof (digits2_shifted (Pos.to_nat p) m) as Hdig.
  pose proof (shr_exact (Pos.to_nat p) m) as Hshr.
  rewrite <- iter_pos_nat in Hshr. rewrite positive_nat_Z in Hdig.
  assert (Hmz : Pos.iter xO m p = Nat.iter (Pos.to_nat p) xO m)
    by apply Pos2Nat.inj_iter.
  rewrite <- Hmz in Hdig, Hshr. clear Hmz.
  set (mz := Pos.iter xO m p) in *. clearbody mz.
  exists p, mz. split; [lia|]. split; [lia|]. split; [done|].
  rewrite binary_round_aux_canonical.
  - f_equal. lia.
  - unfold canonical_mantissa, fexp. change (emin 53 1024) with (- 1074).
    apply Z.eqb_eq. lia.
  - lia.
Qed.

(** Converting that binary64 back is exact. *)
Lemma round32_double_of_b32 (y : spec_float) :
  valid_binary 24 128 y = true -> round32 (double_of_b32 y) = y.
Proof.
  intros Hv. destruct y as [s|s| |s m e]; try reflexivity.
  destruct (double_of_b32_finite s m e Hv) as (p & mz & Hp & Hdig & Hshr & ->).
  pose proof (valid32_finite s m e Hv) as (He & Hd & Hcase).
  pose proof (Pos2Z.is_pos (digits2_pos m)) as Hd0.
  assert (Hfexp : Z.max (Z.pos (digits2_pos m) + e - 24) (- 149) = e) by lia.
  cbn [round32]. unfold binary_round, shl_align, fexp.
  change (emin 24 128) with (- 149). rewrite Hdig.
  replace (53 + (e - Z.pos p) - 24) with (Z.pos (digits2_pos m) + e - 24) by lia.
  rewrite Hfexp.
  destruct (e - (e - Z.pos p)) as [|q|q] eqn:Eq; [lia| |lia].
  assert (q = p) as -> by lia.
  unfold binary_round_aux, shr_fexp, fexp.
  change (emin 24 128) with (- 149). change (128 - 24) with 104.
  cbn [shr_record_of_loc Zdigits2]. rewrite Hdig.
  replace (53 + (e - Z.pos p) - 24) with (Z.pos (digits2_pos m) + e - 24) by lia.
  rewrite Hfexp, Eq. cbn [shr]. rewrite Hshr.
  cbn [shr_m loc_of_shr_record round_nearest_even shr_record_of_loc Zdigits2].
  replace (e - Z.pos p + Z.pos p) with e by lia.
  rewrite Hfexp, Z.sub_diag. cbn [shr shr_m].
  destruct (Z.leb_spec e 104); [done|lia].
Qed.

(** A binary32 datum survives [pack_f] and [unpack_f]. *)
Lemma pack_unpack_f (y : spec_float) :
  valid_binary 24 128 y = true -> is_nan y = false ->
  exists bs, pack_f (double_of_b32 y) = Ok bs /\ length bs = 4%nat
             /\ unpack_f bs = Ok (double_of_b32 y).
Proof.
  intros Hv Hn. unfold pack_f. rewrite round32_double_of_b32 by done.
  assert (Hinf : is_inf y && negb (is_inf (double_of_b32 y)) = false).
  { destruct y; try reflexivity. }
  rewrite Hinf. eexists. split; [done|]. split; [apply be_bytes_length|].
  unfold unpack_f. rewrite be_bytes_length, be_value_bytes. cbn [Nat.eqb].
  pose proof (bits_of_b32_range y Hv) as Hr.
  change (256 ^ Z.of_nat 4) with (2 ^ 32).
  rewrite Z.mod_small by done. by rewrite b32_bits_round_trip.
Qed.

(** ** One field at a time *)

Lemma int_to_bytes_length (n : nat) (signed : bool) (v : Z) (bs : list byte) :
  int_to_bytes n signed v = Ok bs -> length bs = n.
Proof.
  unfold int_to_bytes.
  destruct signed; (destruct (_ && _); [|done]); intros [= <-];
    apply be_bytes_length.
Qed.

Lemma pack_f_length (x : spec_float) (bs : list byte) :
  pack_f x = Ok bs -> length bs = 4%nat.
Proof.
  unfold pack_f. destruct (_ && _); [done|]. intros [= <-]. done.
Qed.

Lemma clamp_range (signed : bool) (n : Z) :
  if signed then - 32768 <= _clamp signed n <= 32767
  else 0 <= _clamp signed n <= 65535.
Proof. unfold _clamp. destruct signed; lia. Qed.

Lemma clamp_id (signed : bool) (n : Z) :
  (if signed then - 32768 <= n <= 32767 else 0 <= n <= 65535) ->
  _clamp signed n = n.
Proof. unfold _clamp. destruct signed; lia. Qed.

(** ** What a record can hold *)

Lemma getslice_length_le (l : list byte) (a k : Z) :
  0 <= k -> blen (getslice l a (a + k)) <= k.
Proof.
  intros Hk. unfold getslice, slice_bound, blen.
  rewrite length_take, length_drop. zcases.
Qed.

Lemma be_value_range (bs : list byte) :
  0 <= be_value bs < 256 ^ blen bs.
Proof.
  unfold be_value, blen.
  assert (Hgen : forall acc n, 0 <= n -> 0 <= acc < 256 ^ n ->
            0 <= fold_left (fun a b => a * 256 + byte_to_Z b) bs acc
            < 256 ^ (n + Z.of_nat (length bs))).
  { induction bs as [|b bs IH]; intros acc n Hn Hacc; cbn [fold_left length].
    - by rewrite Z.add_0_r.
    - pose proof (byte_to_Z_range b).
      replace (n + Z.of_nat (S (length bs))) with (Z.succ n + Z.of_nat (length bs)) by lia.
      apply IH; [lia|]. rewrite Z.pow_succ_r by done. lia. }
  apply (Hgen 0 0); [done|]. cbn. lia.
Qed.

(** [coerce] produces stored values. *)
Lemma coerce_stored (f : PLCField) (v v' : pyval) :
  coerce f v = Ok v' -> stored_value f v'.
Proof.
  destruct f as [off bit d s|off d sg s|off d s]; cbn [coerce stored_value].
  - intros [= <-]. destruct (py_bool v); [by right|by left].
  - destruct (py_int v) as [n|]; [|done]. rewrite bind_Ok. intros [= <-].
    eexists. split; [done|]. apply clamp_range.
  - destruct (py_float v) as [x|]; [|done]. rewrite bind_Ok. intros [= <-]. eauto.
Qed.

(** [read] keeps a record inside its stored values. *)
Lemma read_stored (f : PLCField) (data : list byte) (current v' : pyval) :
  stored_value f current -> read f data current = Ok v' -> stored_value f v'.
Proof.
  intros Hcur. destruct f as [off bit d s|off d sg s|off d s]; unfold read; cbn [size].
  - destruct (_ <=? _); [by intros [= <-]|].
    destruct (getitem data off) as [b|]; [|done]. rewrite bind_Ok.
    destruct (py_shiftr _ bit) as [x|]; [|done]. rewrite bind_Ok. intros [= <-].
    cbn [stored_value]. change 1 with (Z.ones 1). rewrite Z.land_ones by lia.
    change (2 ^ 1) with 2. pose proof (Z.mod_pos_bound x 2 eq_refl).
    assert (x mod 2 = 0 \/ x mod 2 = 1) as [-> | ->] by lia; [by left|by right].
  - pose proof (getslice_length_le data off 2 ltac:(lia)) as Hle.
    destruct (Z.ltb_spec (blen (getslice data off (off + 2))) 2); [by intros [= <-]|].
    intros [= <-]. cbn [stored_value]. eexists. split; [done|].
    set (bs := getslice data off (off + 2)) in *.
    assert (Hlen : blen bs = 2) by lia.
    pose proof (be_value_range bs) as Hr. rewrite Hlen in Hr.
    change (256 ^ 2) with 65536 in Hr.
    unfold int_from_bytes. rewrite Hlen.
    change (8 * 2) with 16. change (2 ^ (16 - 1)) with 32768. change (2 ^ 16) with 65536.
    clearbody bs. destruct bs as [|b bs]; [unfold blen in Hlen; cbn in Hlen; lia|].
    destruct sg; zcases; lia.
  - destruct (_ <? _); [by intros [= <-]|].
    destruct (unpack_f _) as [x|[]]; intros [= <-]; try done. cbn. eauto.
Qed.

(** [write] keeps the length of the buffer and every byte outside the
    range of the field. *)
Lemma write_frame (f : PLCField) (buf buf' : list byte) (v : pyval) :
  wf_field f -> byte_offset f + size f <= blen buf ->
  write f buf v = Ok buf' ->
  length buf' = length buf
  /\ forall i : nat,
       ~ (byte_offset f <= Z.of_nat i < byte_offset f + size f) ->
       buf' !! i = buf !! i.
Proof.
  intros [Hoff Hbit] Hfit Hw.
  destruct f as [off bit d s|off d sg s|off d s]; cbn [byte_offset size] in *.
  - destruct (write_bool_ok off bit d s buf v) as (old & new & _ & _ & Hw');
      [lia|done|].
    rewrite Hw' in Hw. injection Hw as <-. split; [apply length_insert|].
    intros i Hi. apply list_lookup_insert_ne. lia.
  - unfold write in Hw. cbn [size] in Hw.
    destruct (py_int v) as [n|]; [|done]. rewrite bind_Ok in Hw.
    destruct (int_to_bytes _ sg _) as [bs|] eqn:Hbs; [|done].
    rewrite bind_Ok in Hw. injection Hw as <-.
    apply int_to_bytes_length in Hbs.
    split.
    + apply setslice_length; [done| |done]. rewrite Hbs. done.
    + intros i Hi. apply setslice_outside; [done| |done|lia]. rewrite Hbs. done.
  - unfold write in Hw. cbn [size] in Hw.
    destruct (py_float v) as [x|]; [|done]. rewrite bind_Ok in Hw.
    destruct (pack_f x) as [bs|] eqn:Hbs; [|done].
    rewrite bind_Ok in Hw. injection Hw as <-.
    apply pack_f_length in Hbs.
    split.
    + apply setslice_length; [done| |done]. rewrite Hbs. done.
    + intros i Hi. apply setslice_outside; [done| |done|lia]. rewrite Hbs. done.
Qed.

(** [write] accepts every encodable value. *)
Lemma write_encodable (f : PLCField) (buf : list byte) (v : pyval) :
  wf_field f -> byte_offset f + size f <= blen buf -> encodable f v ->
  exists buf', write f buf v = Ok buf'.
Proof.
  intros [Hoff Hbit] Hfit [Hst Hpack].
  destruct f as [off bit d s|off d sg s|off d s]; cbn [byte_offset size] in *.
  - destruct (write_bool_ok off bit d s buf v) as (old & new & _ & _ & Hw');
      [lia|done|]. eauto.
  - destruct Hst as (n & -> & Hn). unfold write. cbn [py_int size].
    change (Z.to_nat 2) with 2%nat. rewrite bind_Ok.
    destruct (int_codec sg (_clamp sg n) (clamp_range sg n)) as (bs & -> & _).
    rewrite bind_Ok. eauto.
  - destruct Hst as (x & ->). unfold write. cbn [py_float].
    rewrite bind_Ok. specialize (Hpack x eq_refl).
    unfold fits_binary32 in Hpack. unfold pack_f. rewrite Hpack.
    rewrite bind_Ok. eauto.
Qed.

Lemma read_bool (off bit : Z) (d s : bool) (buf : list byte) (b : byte)
  (current : pyval) :
  0 <= off < blen buf -> 0 <= bit -> buf !! Z.to_nat off = Some b ->
  read (PLCBoolField off bit d s) buf current
  = Ok (VInt (Z.b2z (Z.testbit (byte_to_Z b) bit))).
Proof.
  intros Hoff Hbit Hb. unfold read.
  destruct (Z.leb_spec (blen buf) off); [lia|].
  destruct (getitem_in buf off Hoff) as (b' & Hb' & ->).
  assert (b' = b) as -> by congruence.
  rewrite bind_Ok. unfold py_shiftr.
  destruct (Z.ltb_spec bit 0); [lia|]. rewrite bind_Ok.
  do 2 f_equal. change 1 with (Z.ones 1). rewrite Z.land_ones by lia.
  change (2 ^ 1) with 2. rewrite <- Z.bit0_mod, Z.shiftr_spec by lia.
  done.
Qed.

(** Reading back what was just written. *)
Lemma write_decodes (f : PLCField) (buf : list byte) (v : pyval) :
  wf_field f -> byte_offset f + size f <= blen buf -> in_range f v ->
  exists buf', write f buf v = Ok buf' /\ decodes f buf' v.
Proof.
  intros [Hoff Hbit] Hfit Hv.
  destruct f as [off bit d s|off d sg s|off d s];
    cbn [byte_offset size in_range stored_value] in *.
  - destruct (write_bool_isolated off bit d s buf v)
      as (buf' & old & new & Hw & Hlen & _ & _ & Hnew & _ & Hbitv); [lia|done|].
    exists buf'. split; [done|]. intros current.
    rewrite (read_bool off bit d s buf' new); [|unfold blen in *; lia|lia|done].
    rewrite Hbitv. by destruct Hv as [-> | ->].
  - destruct Hv as (n & -> & Hn). unfold write. cbn [py_int size].
    change (Z.to_nat 2) with 2%nat. rewrite bind_Ok, (clamp_id sg n Hn).
    destruct (int_codec sg n Hn) as (bs & -> & Hlen & Hback).
    rewrite bind_Ok. eexists. split; [done|]. intros current.
    unfold read. cbn [size].
    rewrite getslice_setslice; [|done|by rewrite Hlen|done].
    unfold blen. rewrite Hlen. cbn. by rewrite Hback.
  - destruct Hv as (y & Hvalid & Hnan & ->). unfold write. cbn [py_float size].
    rewrite bind_Ok.
    destruct (pack_unpack_f y Hvalid Hnan) as (bs & -> & Hlen & Hback).
    rewrite bind_Ok. eexists. split; [done|]. intros current.
    unfold read. cbn [size].
    rewrite getslice_setslice; [|done|by rewrite Hlen|done].
    unfold blen. rewrite Hlen. cbn. by rewrite Hback.
Qed.

(** [read] looks only at the bytes of the field. *)
Lemma read_ext (f : PLCField) (buf buf' : list byte) (current : pyval) :
  wf_field f -> byte_offset f + size f <= blen buf ->
  length buf' = length buf ->
  (forall i : nat,
     byte_offset f <= Z.of_nat i < byte_offset f + size f -> buf' !! i = buf !! i) ->
  read f buf' current = read f buf current.
Proof.
  intros [Hoff Hbit] Hfit Hlen Hsame.
  assert (Hblen : blen buf' = blen buf) by (unfold blen; by rewrite Hlen).
  destruct f as [off bit d s|off d sg s|off d s]; cbn [byte_offset size] in *.
  - destruct (getitem_in buf off ltac:(lia)) as (b & Hb & _).
    rewrite (read_bool off bit d s buf b) by (done || lia).
    apply read_bool; [lia|lia|]. rewrite Hsame by lia. done.
  - unfold read. cbn [size]. by rewrite (getslice_ext buf buf') by (done || lia).
  - unfold read. cbn [size]. by rewrite (getslice_ext buf buf') by (done || lia).
Qed.

(** Writing a compatible field does not change what [read] returns. *)
Lemma read_frame (f g : PLCField) (buf buf' : list byte) (w current : pyval) :
  wf_field f -> wf_field g -> compatible f g ->
  byte_offset f + size f <= blen buf -> byte_offset g + size g <= blen buf ->
  write g buf w = Ok buf' ->
  read f buf' current = read f buf current.
Proof.
  intros Hf Hg Hcompat Hfitf Hfitg Hw.
  destruct (write_frame g buf buf' w Hg Hfitg Hw) as [Hlen Hout].
  assert (Hdisj : (byte_offset f + size f <= byte_offset g
                   \/ byte_offset g + size g <= byte_offset f) ->
                  read f buf' current = read f buf current).
  { intros Hd. apply read_ext; try done. intros i Hi. apply Hout. lia. }
  destruct Hcompat as [Hd|[Hd|Hbits]]; [by apply Hdisj; left|by apply Hdisj; right|].
  destruct f as [off bit d s| |]; [|done|done].
  destruct g as [off' bit' d' s'| |]; [|done|done].
  destruct Hbits as [<- Hne]. destruct Hf as [Hoff Hbit], Hg as [_ Hbit'].
  cbn [byte_offset size] in *.
  destruct (write_bool_isolated off bit' d' s' buf w)
    as (buf'' & old & new & Hw' & _ & _ & Hold & Hnew & Hbits & _); [lia|done|].
  assert (buf'' = buf') as -> by congruence.
  rewrite (read_bool off bit d s buf old), (read_bool off bit d s buf' new);
    try done; try lia; [|unfold blen in *; lia].
  rewrite Hbits by lia. done.
Qed.

Lemma decodes_frame (f g : PLCField) (buf buf' : list byte) (v w : pyval) :
  wf_field f -> wf_field g -> compatible f g ->
  byte_offset f + size f <= blen buf -> byte_offset g + size g <= blen buf ->
  write g buf w = Ok buf' -> decodes f buf v -> decodes f buf' v.
Proof.
  intros Hf Hg Hc Hfitf Hfitg Hw Hdec current.
  rewrite (read_frame f g buf buf' w) by done. apply Hdec.
Qed.

Lemma compatible_sym (f g : PLCField) : compatible f g -> compatible g f.
Proof.
  unfold compatible. intros [H|[H|H]]; [by right; left|by left|].
  right; right. destruct f, g; try done. destruct H as [-> Hne]. split; [done|].
  congruence.
Qed.

(** ** The size of the buffer *)

Lemma fold_max_ge (rest : schema) (acc : Z) :
  acc <= fold_left (fun a '(_, g) => Z.max a (byte_offset g + size g)) rest acc
  /\ Forall (fun '(_, g) =>
       byte_offset g + size g
       <= fold_left (fun a '(_, g) => Z.max a (byte_offset g + size g)) rest acc)
     rest.
Proof.
  revert acc. induction rest as [|[n g] rest IH]; intros acc; cbn [fold_left].
  - split; [lia|constructor].
  - destruct (IH (Z.max acc (byte_offset g + size g))) as [Hacc Hrest].
    split; [lia|]. constructor; [lia|done].
Qed.

Lemma fold_max_attained (rest : schema) (acc : Z) :
  fold_left (fun a '(_, g) => Z.max a (byte_offset g + size g)) rest acc = acc
  \/ Exists (fun '(_, g) =>
       byte_offset g + size g
       = fold_left (fun a '(_, g) => Z.max a (byte_offset g + size g)) rest acc)
     rest.
Proof.
  revert acc. induction rest as [|[n g] rest IH]; intros acc; cbn [fold_left].
  - by left.
  - destruct (IH (Z.max acc (byte_offset g + size g))) as [Heq|Hex].
    + rewrite Heq. destruct (Z.max_spec acc (byte_offset g + size g)) as [[_ ->]|[_ ->]].
      * right. by constructor.
      * by left.
    + right. by apply Exists_cons_tl.
Qed.

Lemma buffer_size_bound (fields : schema) :
  Forall (fun '(_, f) => byte_offset f + size f <= buffer_size fields) fields.
Proof.
  destruct fields as [|[n f] rest]; [constructor|]. unfold buffer_size.
  destruct (fold_max_ge rest (byte_offset f + size f)) as [Hacc Hrest].
  by constructor.
Qed.

Lemma buffer_size_attained (fields : schema) :
  fields <> [] ->
  Exists (fun '(_, f) => byte_offset f + size f = buffer_size fields) fields.
Proof.
  destruct fields as [|[n f] rest]; [done|]. intros _. unfold buffer_size.
  destruct (fold_max_attained rest (byte_offset f + size f)) as [Heq|Hex].
  - by constructor.
  - by apply Exists_cons_tl.
Qed.

Lemma size_pos (f : PLCField) : 0 < size f.
Proof. destruct f; cbn; lia. Qed.

Lemma buffer_size_nonneg (fields : schema) :
  Forall (fun '(_, f) => wf_field f) fields -> 0 <= buffer_size fields.
Proof.
  intros Hwf. destruct fields as [|[n f] rest]; [done|].
  pose proof (buffer_size_bound ((n, f) :: rest)) as Hb.
  apply Forall_cons in Hb as [Hb _]. apply Forall_cons in Hwf as [[Hoff _] _].
  pose proof (size_pos f). lia.
Qed.

(** ** The loop of [to_bytes] *)

Lemma to_bytes_loop_frame (d : PLCData) (fields : schema) (buf : list byte) :
  Forall (fun '(name, f) =>
            wf_field f /\ byte_offset f + size f <= blen buf
            /\ encodable f (getattr d name f)) fields ->
  exists buf',
    to_bytes_loop d fields buf = Ok buf'
    /\ length buf' = length buf
    /\ forall i : nat, ~ covered fields (Z.of_nat i) -> buf' !! i = buf !! i.
Proof.
  revert buf. induction fields as [|[name f] rest IH]; intros buf Hall.
  - exists buf. by repeat split.
  - apply Forall_cons in Hall as [(Hwf & Hfit & Henc) Hrest].
    destruct (write_encodable f buf _ Hwf Hfit Henc) as (buf1 & Hw).
    destruct (write_frame f buf buf1 _ Hwf Hfit Hw) as [Hlen1 Hout1].
    destruct (IH buf1) as (buf' & Hloop & Hlen & Hout).
    { eapply Forall_impl; [exact Hrest|]. intros [n g] (? & ? & ?).
      unfold blen in *. rewrite Hlen1. done. }
    exists buf'. cbn [to_bytes_loop]. rewrite Hw, bind_Ok.
    split; [done|]. split; [congruence|].
    intros i Hi. rewrite Hout, Hout1; [done| |].
    + intros Hin. apply Hi. by constructor.
    + intros Hin. apply Hi. by apply Exists_cons_tl.
Qed.

Lemma to_bytes_loop_preserves (d : PLCData) (fields : schema) (f : PLCField)
  (v : pyval) (buf buf' : list byte) :
  wf_field f -> byte_offset f + size f <= blen buf ->
  Forall (fun '(_, g) =>
            wf_field g /\ byte_offset g + size g <= blen buf /\ compatible f g)
         fields ->
  to_bytes_loop d fields buf = Ok buf' ->
  decodes f buf v -> decodes f buf' v.
Proof.
  intros Hwf. revert buf.
  induction fields as [|[name g] rest IH]; intros buf Hfit Hall Hloop Hdec.
  - cbn in Hloop. congruence.
  - apply Forall_cons in Hall as [(Hwg & Hfitg & Hc) Hrest].
    cbn [to_bytes_loop] in Hloop.
    destruct (write g buf _) as [buf1|] eqn:Hw; [|done]. rewrite bind_Ok in Hloop.
    destruct (write_frame g buf buf1 _ Hwg Hfitg Hw) as [Hlen1 _].
    assert (Hb : blen buf1 = blen buf) by (unfold blen; by rewrite Hlen1).
    apply (IH buf1); try done.
    + by rewrite Hb.
    + eapply Forall_impl; [exact Hrest|]. intros [n h] (? & ? & ?). by rewrite Hb.
    + by apply (decodes_frame f g buf buf1 v (getattr d name g)).
Qed.

Lemma to_bytes_loop_decodes (d : PLCData) (fields : schema) (buf : list byte) :
  Forall (fun '(name, f) =>
            wf_field f /\ byte_offset f + size f <= blen buf
            /\ in_range f (getattr d name f)) fields ->
  non_overlapping fields ->
  exists buf',
    to_bytes_loop d fields buf = Ok buf'
    /\ length buf' = length buf
    /\ Forall (fun '(name, f) => decodes f buf' (getattr d name f)) fields.
Proof.
  revert buf. induction fields as [|[name f] rest IH]; intros buf Hall Hno.
  - exists buf. by repeat split.
  - apply Forall_cons in Hall as [(Hwf & Hfit & Hin) Hrest].
    destruct Hno as [Hcompat Hno].
    destruct (write_decodes f buf _ Hwf Hfit Hin) as (buf1 & Hw & Hdec).
    destruct (write_frame f buf buf1 _ Hwf Hfit Hw) as [Hlen1 _].
    assert (Hb : blen buf1 = blen buf) by (unfold blen; by rewrite Hlen1).
    destruct (IH buf1) as (buf' & Hloop & Hlen & Hdecs); [|done|].
    { eapply Forall_impl; [exact Hrest|]. intros [n g] (? & ? & ?). by rewrite Hb. }
    exists buf'. cbn [to_bytes_loop]. rewrite Hw, bind_Ok.
    split; [done|]. split; [congruence|]. constructor; [|done].
    apply (to_bytes_loop_preserves d rest f _ buf1 buf'); try done.
    + by rewrite Hb.
    + apply Forall_forall. intros [n g] Hg.
      rewrite Forall_forall in Hrest. rewrite Forall_forall in Hcompat.
      specialize (Hrest _ Hg). specialize (Hcompat _ Hg). cbn in *.
      destruct Hrest as (? & ? & ?). rewrite Hb. done.
Qed.

(** ** The loop of [from_bytes] *)

Lemma from_bytes_loop_decodes (fields : schema) (raw : list byte)
  (vals : gmap string pyval) (val : string -> PLCField -> pyval) :
  NoDup fields.*1 ->
  Forall (fun '(name, f) => decodes f raw (val name f)) fields ->
  exists vals',
    from_bytes_loop fields raw vals = (Ok (), vals')
    /\ Forall (fun '(name, f) => vals' !! name = Some (val name f)) fields
    /\ forall name, name ∉ fields.*1 -> vals' !! name = vals !! name.
Proof.
  revert vals. induction fields as [|[name f] rest IH]; intros vals Hnd Hdec.
  - exists vals. split; [done|]. split; [constructor|done].
  - apply NoDup_cons in Hnd as [Hfresh Hnd].
    apply Forall_cons in Hdec as [Hf Hrest].
    destruct (IH (<[name := val name f]> vals) Hnd Hrest) as (vals' & Hloop & Hset & Hkeep).
    exists vals'. cbn [from_bytes_loop]. rewrite Hf.
    split; [done|]. split.
    + constructor; [|done]. rewrite Hkeep by done. apply lookup_insert_eq.
    + intros n Hn. cbn in Hn. apply not_elem_of_cons in Hn as [Hne Hn].
      rewrite Hkeep by done. by apply lookup_insert_ne.
Qed.

(** ** Whole records *)

Lemma to_bytes_start (d : PLCData) :
  Forall (fun '(_, f) => wf_field f) (_fields d) ->
  bytearray (buffer_size (_fields d))
  = Ok (replicate (Z.to_nat (buffer_size (_fields d))) x00)
  /\ blen (replicate (Z.to_nat (buffer_size (_fields d))) x00)
     = buffer_size (_fields d).
Proof.
  intros Hwf. pose proof (buffer_size_nonneg _ Hwf) as Hn.
  unfold bytearray, blen. rewrite length_replicate.
  destruct (Z.ltb_spec (buffer_size (_fields d)) 0); [lia|]. split; [done|lia].
Qed.

(** C1 as stated fails: two word fields at the same offset are a
    well-formed schema and hold in-range values, but after the round
    trip the first one has taken the value of the second. *)
Lemma round_trip_overlap_counterexample :
  wf_schema (_fields overlapping_words)
  /\ all_values in_range overlapping_words
  /\ ~ round_trips overlapping_words.
Proof.
  split; [|split].
  - split.
    + refine (bool_decide_unpack _ _). vm_compute. exact I.
    + repeat constructor; cbn; lia.
  - repeat constructor; cbn; eexists; (split; [reflexivity|lia]).
  - intros (buf & d' & Hto & Hfrom & Hsame).
    assert (Hbuf : to_bytes overlapping_words = Ok [x00; x02]) by (vm_compute; reflexivity).
    rewrite Hbuf in Hto. injection Hto as <-.
    apply Forall_cons in Hsame as [Ha _].
    assert (Ha' : getattr (from_bytes overlapping_words [x00; x02]).2 "a"
                    (PLCWordField 0 0 false false) = VInt 2)
      by (vm_compute; reflexivity).
    rewrite Hfrom in Ha'. cbn [snd] in Ha'. rewrite Ha' in Ha.
    vm_compute in Ha. discriminate Ha.
Qed.

(** C1, amended.  For a well-formed schema whose fields do not overlap
    (disjoint byte ranges, or two bits of one byte) and a record whose
    values are all in range (bits 0 or 1, words inside their 16-bit
    range, reals equal to a binary32 number), [to_bytes] succeeds,
    [from_bytes] on its result succeeds, and every field reads back
    exactly the value it had. *)
Theorem round_trip (d : PLCData) :
  wf_schema (_fields d) -> non_overlapping (_fields d) ->
  all_values in_range d ->
  round_trips d.
Proof.
  intros [Hnd Hwf] Hno Hin.
  destruct (to_bytes_start d Hwf) as [Hstart Hblen].
  destruct (to_bytes_loop_decodes d (_fields d)
              (replicate (Z.to_nat (buffer_size (_fields d))) x00))
    as (buf & Hloop & Hlen & Hdec); [|exact Hno|].
  { pose proof (buffer_size_bound (_fields d)) as Hb.
    unfold all_values in Hin.
    rewrite Forall_forall in Hwf, Hin, Hb. apply Forall_forall.
    intros [name f] Hf. rewrite Hblen.
    specialize (Hwf _ Hf). specialize (Hin _ Hf). specialize (Hb _ Hf). done. }
  destruct (from_bytes_loop_decodes (_fields d) buf (_values d) (getattr d) Hnd Hdec)
    as (vals' & Hfrom & Hset & _).
  exists buf, (notify_subscribers (set_values d vals')).
  split; [|split].
  - unfold to_bytes. by rewrite Hstart, bind_Ok.
  - unfold from_bytes. by rewrite Hfrom.
  - eapply Forall_impl; [exact Hset|]. intros [name f] Hv.
    unfold getattr at 1. cbn. by rewrite Hv.
Qed.

Lemma sample_record_wf : wf_schema (_fields sample_record).
Proof.
  split.
  - refine (bool_decide_unpack _ _). vm_compute. exact I.
  - repeat constructor; cbn; lia.
Qed.

Lemma round_trip_witness : round_trips sample_record.
Proof.
  apply round_trip.
  - exact sample_record_wf.
  - cbn. repeat split; repeat constructor; cbn; lia.
  - unfold all_values.
    apply Forall_cons; split; [|apply Forall_cons; split;
                                [|apply Forall_cons; split; [|by apply Forall_nil]]].
    + exists (S754_finite false 12582912 (- 23)).
      split; [reflexivity|]. split; [reflexivity|]. vm_compute. reflexivity.
    + exists 1013. split; [vm_compute; reflexivity|cbn; lia].
    + right. vm_compute. reflexivity.
Defined.

(** C10 as stated fails: a real field may hold any float, and [1e39]
    does not pack as a binary32, so [to_bytes] raises [OverflowError]
    and returns no buffer at all. *)
Lemma to_bytes_overflow_counterexample :
  wf_schema (_fields huge_real)
  /\ all_values stored_value huge_real
  /\ to_bytes huge_real = Raise OverflowError
  /\ ~ (exists buf, to_bytes huge_real = Ok buf
                    /\ blen buf = buffer_size (_fields huge_real)).
Proof.
  assert (Hraise : to_bytes huge_real = Raise OverflowError)
    by (vm_compute; reflexivity).
  split; [|split; [|split]].
  - split.
    + refine (bool_decide_unpack _ _). vm_compute. exact I.
    + repeat constructor; cbn; lia.
  - apply Forall_cons; split; [|by apply Forall_nil]. by eexists.
  - exact Hraise.
  - intros (buf & Hbuf & _). rewrite Hraise in Hbuf. discriminate Hbuf.
Qed.

(** C10, amended.  For a well-formed schema and stored values whose
    reals fit binary32 (infinite, NaN, or rounding to a finite
    binary32), [to_bytes] returns a buffer of exactly [buffer_size]
    bytes, every position outside all field ranges holds zero, and
    [buffer_size] is 0 for the empty schema and otherwise the largest
    [byte_offset + size]. *)
Theorem to_bytes_shape (d : PLCData) :
  wf_schema (_fields d) -> all_values encodable d ->
  exists buf,
    to_bytes d = Ok buf
    /\ blen buf = buffer_size (_fields d)
    /\ (forall i : nat,
          (i < length buf)%nat -> ~ covered (_fields d) (Z.of_nat i) ->
          buf !! i = Some x00)
    /\ (_fields d = [] -> buffer_size (_fields d) = 0)
    /\ Forall (fun '(_, f) => byte_offset f + size f <= buffer_size (_fields d))
              (_fields d)
    /\ (_fields d <> [] ->
        Exists (fun '(_, f) => byte_offset f + size f = buffer_size (_fields d))
               (_fields d)).
Proof.
  intros [_ Hwf] Henc.
  destruct (to_bytes_start d Hwf) as [Hstart Hblen].
  destruct (to_bytes_loop_frame d (_fields d)
              (replicate (Z.to_nat (buffer_size (_fields d))) x00))
    as (buf & Hloop & Hlen & Hout).
  { pose proof (buffer_size_bound (_fields d)) as Hb.
    unfold all_values in Henc.
    rewrite Forall_forall in Hwf, Henc, Hb. apply Forall_forall.
    intros [name f] Hf. rewrite Hblen.
    specialize (Hwf _ Hf). specialize (Henc _ Hf). specialize (Hb _ Hf). done. }
  exists buf. split; [|split; [|split; [|split; [|split]]]].
  - unfold to_bytes. by rewrite Hstart, bind_Ok.
  - unfold blen in *. by rewrite Hlen.
  - intros i Hi Hun. rewrite Hout by done.
    apply lookup_replicate_2. rewrite Hlen, length_replicate in Hi. done.
  - intros ->. reflexivity.
  - apply buffer_size_bound.
  - apply buffer_size_attained.
Qed.

Lemma to_bytes_shape_witness :
  exists buf, to_bytes sample_record = Ok buf /\ blen buf = 7.
Proof.
  destruct (to_bytes_shape sample_record) as (buf & Hbuf & Hlen & _).
  - exact sample_record_wf.
  - unfold all_values.
    apply Forall_cons; split; [|apply Forall_cons; split;
                                [|apply Forall_cons; split; [|by apply Forall_nil]]].
    + split; [by eexists|]. intros x [= <-]. vm_compute. reflexivity.
    + split; [|done]. exists 1013. split; [vm_compute; reflexivity|cbn; lia].
    + split; [|done]. right. vm_compute. reflexivity.
  - exists buf. split; [exact Hbuf|]. rewrite Hlen. reflexivity.
Defined.

(** ** Liveness *)

Section Liveness.
Context {Env : Type} `{Environment Env}.

Lemma is_connected_unset (w : World Env) :
  _last_connected (data_store w) = None -> is_connected w = (Ok false, w).
Proof.
  intros Hnone. unfold is_connected, get_store, mbind, M_bind. by rewrite Hnone.
Qed.

Lemma is_connected_set (w : World Env) (last : Z) :
  _last_connected (data_store w) = Some last ->
  is_connected w
  = (Ok ((now (env w)).1 - last <=? IS_CONNECTED_TIMEOUT * 1000000),
     mkWorld (now (env w)).2 (data_store w) (trace w)).
Proof.
  intros Hsome. unfold is_connected, get_store, clock, mbind, M_bind.
  rewrite Hsome. by destruct (now (env w)).
Qed.

(** The setter never raises; it stores the timestamp, leaves schema and
    values alone and arms one timer. *)
Lemma last_connected_setter_spec (t : Z) (w : World Env) :
  exists w',
    last_connected_setter t w = (Ok (), w')
    /\ trace w' = trace w ++ [CallLater IS_CONNECTED_TIMEOUT]
    /\ _last_connected (data_store w') = Some t
    /\ _values (data_store w') = _values (data_store w)
    /\ _fields (data_store w') = _fields (data_store w).
Proof.
  destruct w as [e d tr].
  unfold last_connected_setter, is_connected, get_store, modify_store, clock, emit.
  unfold mbind, M_bind, mret, M_ret. cbn.
  destruct (_last_connected d) as [last|]; cbn.
  - destruct (now e) as [t1 e1]; cbn. destruct (now e1) as [t2 e2]; cbn.
    destruct (negb _); cbn; eexists; split; try reflexivity; done.
  - destruct (now e) as [t1 e1]; cbn.
    destruct (negb _); cbn; eexists; split; try reflexivity; done.
Qed.

(** C8.  Liveness.  With no timestamp recorded the flag is false and
    the clock is not even read.  With timestamp [last] the flag is the
    outcome of the test [now - last <= window], the window being
    [IS_CONNECTED_TIMEOUT] = 2 seconds.  The setter always succeeds and
    records the timestamp it is given, so a check made while the clock
    still reads that timestamp reports live. *)
Theorem liveness_flag (w : World Env) :
  (_last_connected (data_store w) = None -> is_connected w = (Ok false, w))
  /\ (forall last,
        _last_connected (data_store w) = Some last ->
        (is_connected w).1 = Ok ((now (env w)).1 - last <=? 2000000)
        /\ ((is_connected w).1 = Ok true <-> (now (env w)).1 - last <= 2000000))
  /\ (forall t,
        exists w',
          last_connected_setter t w = (Ok (), w')
          /\ _last_connected (data_store w') = Some t
          /\ ((now (env w')).1 = t -> (is_connected w').1 = Ok true)).
Proof.
  split; [apply is_connected_unset|]. split.
  - intros last Hlast. rewrite (is_connected_set w last Hlast). cbn [fst].
    change (IS_CONNECTED_TIMEOUT * 1000000) with 2000000. split; [done|].
    split.
    + intros [= Hle]. by apply Z.leb_le.
    + intros Hle. f_equal. by apply Z.leb_le.
  - intros t. destruct (last_connected_setter_spec t w) as (w' & Hset & _ & Hlast & _).
    exists w'. split; [done|]. split; [done|].
    intros Hnow. rewrite (is_connected_set w' t Hlast). cbn [fst].
    rewrite Hnow, Z.sub_diag. done.
Qed.
End Liveness.

Lemma liveness_flag_witness :
  (is_connected frozen_world).1 = Ok false
  /\ (is_connected (last_connected_setter 5000000 frozen_world).2).1 = Ok true.
Proof.
  split.
  - rewrite (proj1 (liveness_flag frozen_world)); reflexivity.
  - destruct (proj2 (proj2 (liveness_flag frozen_world)) 5000000)
      as (w' & Hset & Hlast & Hlive).
    rewrite Hset. cbn [snd]. apply Hlive.
    assert (Hw : w' = (last_connected_setter 5000000 frozen_world).2)
      by (by rewrite Hset).
    rewrite Hw. vm_compute. reflexivity.
Defined.

(** ** Notifications *)

(** On a well-formed field [read] never raises. *)
Lemma read_total (f : PLCField) (raw : list byte) (current : pyval) :
  wf_field f -> exists v, read f raw current = Ok v.
Proof.
  intros [Hoff Hbit]. destruct f as [off bit d s|off d sg s|off d s]; cbn [byte_offset] in *.
  - unfold read. destruct (Z.leb_spec (blen raw) off); [eauto|].
    destruct (getitem_in raw off ltac:(lia)) as (b & _ & ->). rewrite bind_Ok.
    unfold py_shiftr. destruct (Z.ltb_spec bit 0); [lia|]. rewrite bind_Ok. eauto.
  - unfold read. destruct (_ <? _); eauto.
  - unfold read. destruct (_ <? _); [eauto|].
    unfold unpack_f. destruct (_ =? _)%nat; eauto.
Qed.

Lemma from_bytes_loop_total (fields : schema) (raw : list byte)
  (vals : gmap string pyval) :
  Forall (fun '(_, f) => wf_field f) fields ->
  exists vals', from_bytes_loop fields raw vals = (Ok (), vals').
Proof.
  revert vals. induction fields as [|[name f] rest IH]; intros vals Hwf.
  - by exists vals.
  - apply Forall_cons in Hwf as [Hf Hrest]. cbn [from_bytes_loop].
    destruct (read_total f raw (from_option id (default f) (vals !! name)) Hf)
      as (v & ->).
    apply IH. done.
Qed.

Lemma notify_subscribers_queues (d : PLCData) :
  _subscribers (notify_subscribers d) = map notified (_subscribers d).
Proof.
  unfold notify_subscribers. cbn. apply map_ext. intros q.
  unfold put_nowait, notified. by destruct (_ && _).
Qed.

(** C9.  Batching.  One call of [from_bytes] that returns normally has
    handed every subscriber queue exactly one notification, whatever
    the buffer and however many fields changed: a queue with room grows
    by one item, a full queue stays as it is, and no queue is added or
    removed.  On a well-formed schema [from_bytes] always returns
    normally; a call that raises (which takes an ill-formed bit field)
    notifies nobody. *)
Theorem from_bytes_notifies_once (d : PLCData) (raw : list byte) :
  (Forall (fun '(_, f) => wf_field f) (_fields d) ->
   exists d', from_bytes d raw = (Ok (), d'))
  /\ (forall d',
        from_bytes d raw = (Ok (), d') ->
        length (_subscribers d') = length (_subscribers d)
        /\ forall (i : nat) (q : Queue),
             _subscribers d !! i = Some q ->
             exists q',
               _subscribers d' !! i = Some q'
               /\ maxsize q' = maxsize q
               /\ items q'
                  = if (0 <? maxsize q)%nat && (maxsize q <=? length (items q))%nat
                    then items q
                    else items q ++ [InstanceRef])
  /\ (forall e d',
        from_bytes d raw = (Raise e, d') -> _subscribers d' = _subscribers d).
Proof.
  split; [|split].
  - intros Hwf.
    destruct (from_bytes_loop_total (_fields d) raw (_values d) Hwf) as (vals' & Hloop).
    eexists. unfold from_bytes. by rewrite Hloop.
  - intros d'. unfold from_bytes.
    destruct (from_bytes_loop (_fields d) raw (_values d)) as [[[]|e] vals']; [|done].
    intros [= <-]. rewrite notify_subscribers_queues. cbn [set_values _subscribers].
    split; [apply length_map|].
    intros i q Hq. exists (notified q).
    split; [by rewrite list_lookup_fmap, Hq|].
    unfold notified. destruct (_ && _); done.
  - intros e d'. unfold from_bytes.
    destruct (from_bytes_loop (_fields d) raw (_values d)) as [[[]|e'] vals']; [done|].
    by intros [= _ <-].
Qed.

Lemma from_bytes_notifies_once_witness :
  exists d',
    from_bytes (data_store frozen_world) [x41; x20; x00; x00; x00; x2a; x00]
    = (Ok (), d')
    /\ length (_subscribers d') = 1%nat.
Proof.
  destruct (from_bytes_notifies_once (data_store frozen_world)
              [x41; x20; x00; x00; x00; x2a; x00]) as (Hok & Honce & _).
  destruct Hok as (d' & Hd').
  - repeat constructor; cbn; lia.
  - exists d'. split; [exact Hd'|].
    destruct (Honce d' Hd') as [Hlen _]. rewrite Hlen. reflexivity.
Defined.

(** ** The connection manager *)

Lemma count_events_app (p : event -> bool) (tr1 tr2 : list event) :
  count_events p (tr1 ++ tr2) = (count_events p tr1 + count_events p tr2)%nat.
Proof. induction tr1 as [|e tr1 IH]; cbn; [done|]. rewrite IH. lia. Qed.

Lemma count_session_events (p : event -> bool) (tr : list event) :
  (forall e, is_session_event e = true -> p e = false) ->
  Forall (fun e => is_session_event e = true) tr -> count_events p tr = 0%nat.
Proof.
  intros Hp. induction 1 as [|e tr He _ IH]; cbn; [done|].
  by rewrite (Hp e He), IH.
Qed.

(** Both sides are the same events, grouped differently. *)
Ltac solve_trace :=
  cbn [trace]; rewrite <- ?app_assoc; cbn [app]; reflexivity.

Section ManagerFacts.
Context {Env : Type} `{Environment Env}.

(** [connect] never raises; it logs its entry, then only session
    events, and leaves schema and values alone. *)
Lemma connect_spec (self : PLCConnection) (w : World Env) :
  exists b w' delta,
    Connection.connect self w = (Ok b, w')
    /\ trace w' = trace w ++ CallConnect :: delta
    /\ Forall (fun e => is_session_event e = true) delta
    /\ _values (data_store w') = _values (data_store w)
    /\ _fields (data_store w') = _fields (data_store w).
Proof.
  destruct w as [e d tr].
  unfold Connection.connect, try, emit, call, clock.
  unfold mbind, M_bind, mret, M_ret. cbn.
  destruct (get_connected e) as [[[|]|ex] e1]; cbn.
  - exists true. eexists. exists [GetConnected].
    split; [reflexivity|]. cbn. rewrite <- app_assoc. repeat split; repeat constructor.
  - destruct (create_connection _ _ _ e1) as [[[]|ex] e2]; cbn.
    + destruct (client_connect _ _ _ _ e2) as [[[]|ex] e3]; cbn.
      * destruct (now e3) as [t e4]; cbn.
        match goal with
        | |- context [last_connected_setter t ?w0] =>
            destruct (last_connected_setter_spec t w0)
              as (w' & -> & Htr & _ & Hvals & Hfields)
        end.
        exists true, w', [GetConnected; CreateConnection; ClientConnect;
                          CallLater IS_CONNECTED_TIMEOUT].
        split; [reflexivity|]. rewrite Htr. cbn [trace].
        rewrite <- !app_assoc. repeat split; repeat constructor; done.
      * exists false. eexists. exists [GetConnected; CreateConnection; ClientConnect].
        split; [reflexivity|]. cbn. rewrite <- !app_assoc.
        repeat split; repeat constructor.
    + exists false. eexists. exists [GetConnected; CreateConnection].
      split; [reflexivity|]. cbn. rewrite <- !app_assoc.
      repeat split; repeat constructor.
  - exists false. eexists. exists [GetConnected].
    split; [reflexivity|]. cbn. rewrite <- !app_assoc.
    repeat split; repeat constructor.
Qed.

(** C6, amended.  When the state check of [connect] raises, the error
    is not propagated: [connect] returns false at once.  It performs
    neither the TCP probe nor the handshake and leaves the data store
    as it was. *)
Theorem connect_state_check_raises (self : PLCConnection) (w : World Env)
  (e : exn) :
  (get_connected (env w)).1 = Raise e ->
  Connection.connect self w
  = (Ok false,
     mkWorld (get_connected (env w)).2 (data_store w)
             (trace w ++ [CallConnect; GetConnected])).
Proof.
  destruct w as [e0 d tr]. cbn [env data_store trace].
  unfold Connection.connect, try, emit, call.
  unfold mbind, M_bind, mret, M_ret. cbn.
  destruct (get_connected e0) as [[b|ex] e1]; cbn; [done|].
  intros _. by rewrite <- app_assoc.
Qed.

(** C7, amended.  [write] encodes first: [ToBytes] is the first event
    it logs, and an exception of [to_bytes] leaves [write] before any
    other call.  It then checks the state.  A failing state check ends
    [write] with false, with no [connect] attempt and no block write
    (this is where it departs from [read]).  Otherwise [write] never
    raises and calls [connect] at most once; when the state check says
    not connected and that single attempt fails, it returns false
    without a block write.  Once the handle is ready (connected from
    the start, or after the single attempt) the encoded bytes go to
    offset 0 of [db_number]: if that block write succeeds, [write]
    records the next clock reading as sync timestamp and returns true,
    and if it raises, [write] returns false.  A run that returns true
    has issued exactly one block write. *)
Theorem write_protocol (self : PLCConnection) (w : World Env) :
  let run := Connection.write self w in
  let checked :=
    mkWorld (get_connected (env w)).2 (data_store w)
            (trace w ++ [ToBytes; GetConnected]) in
  exists delta,
    trace run.2 = trace w ++ ToBytes :: delta
    /\ (forall e, to_bytes (data_store w) = Raise e ->
          run.1 = Raise e /\ delta = [])
    /\ (forall new_bytes, to_bytes (data_store w) = Ok new_bytes ->
          (run.1 = Ok true \/ run.1 = Ok false)
          /\ (count_events is_connect_call delta <= 1)%nat
          /\ (forall e, (get_connected (env w)).1 = Raise e ->
                run = (Ok false, checked))
          /\ ((get_connected (env w)).1 = Ok false ->
              (Connection.connect self checked).1 = Ok false ->
              run.1 = Ok false /\ count_events is_db_write delta = 0%nat)
          /\ (forall ready,
                ((get_connected (env w)).1 = Ok true /\ ready = checked)
                \/ ((get_connected (env w)).1 = Ok false
                    /\ Connection.connect self checked = (Ok true, ready)) ->
                let sent := db_write (db_number self) 0 new_bytes (env ready) in
                (sent.1 = Ok () ->
                 run.1 = Ok true
                 /\ _last_connected (data_store run.2) = Some (now sent.2).1)
                /\ (forall e, sent.1 = Raise e -> run.1 = Ok false))
          /\ (run.1 = Ok true ->
              count_events is_db_write delta = 1%nat
              /\ DbWrite (db_number self) 0 new_bytes ∈ delta)).
Proof.
  destruct w as [e0 d tr]. cbn [env data_store trace]. cbv zeta.
  unfold Connection.write, store_to_bytes, try, emit, call, clock.
  unfold mbind, M_bind, mret, M_ret. cbn.
  destruct (to_bytes d) as [bs|ex]; cbn.
  2:{ exists []. split; [done|]. split; [by intros ? [= ->]|]. by intros ? [=]. }
  destruct (get_connected e0) as [[[|]|ex] e1]; cbn.
  - (* connected *)
    destruct (db_write _ _ _ e1) as [[[]|ex] e2] eqn:Hsent; cbn.
    + destruct (now e2) as [t e3] eqn:Hnow; cbn.
      match goal with
      | |- context [last_connected_setter t ?w0] =>
          destruct (last_connected_setter_spec t w0)
            as (w' & -> & Htr & Hlast & _)
      end.
      cbn. exists [GetConnected; DbWrite (db_number self) 0 bs;
                   CallLater IS_CONNECTED_TIMEOUT].
      rewrite Htr. split; [solve_trace|]. split; [by intros ? [=]|].
      intros ? [= <-]. split; [by left|]. split; [cbn; lia|].
      split; [by intros ? [=]|]. split; [by intros [=]|]. split.
      * intros ready [[_ ->]|[[=] _]]. cbn. rewrite Hsent. cbn. rewrite Hnow.
        split; [done|]. by intros ? [=].
      * intros _. split; [done|set_solver].
    + exists [GetConnected; DbWrite (db_number self) 0 bs].
      split; [solve_trace|]. split; [by intros ? [=]|].
      intros ? [= <-]. split; [by right|]. split; [cbn; lia|].
      split; [by intros ? [=]|]. split; [by intros [=]|]. split.
      * intros ready [[_ ->]|[[=] _]]. cbn. rewrite Hsent. cbn.
        split; [by intros [=]|done].
      * by intros [=].
  - (* not connected: one attempt *)
    rewrite <- !app_assoc. cbn [app].
    match goal with
    | |- context [Connection.connect self ?w0] =>
        destruct (connect_spec self w0) as (ok & w1 & cd & Hc & Htr1 & Hsess & _)
    end.
    rewrite Hc. cbn.
    assert (Hnoconn : count_events is_connect_call cd = 0%nat)
      by (apply count_session_events; [by intros []|done]).
    assert (Hnowrite : count_events is_db_write cd = 0%nat)
      by (apply count_session_events; [by intros []|done]).
    destruct ok; cbn.
    + destruct (db_write _ _ _ (env w1)) as [[[]|ex] e2] eqn:Hsent; cbn.
      * destruct (now e2) as [t e3] eqn:Hnow; cbn.
        match goal with
        | |- context [last_connected_setter t ?w0] =>
            destruct (last_connected_setter_spec t w0)
              as (w' & -> & Htr & Hlast & _)
        end.
        cbn. exists (GetConnected :: CallConnect :: cd
                     ++ [DbWrite (db_number self) 0 bs;
                         CallLater IS_CONNECTED_TIMEOUT]).
        rewrite Htr. cbn [trace]. rewrite Htr1.
        split; [solve_trace|]. split; [by intros ? [=]|].
        intros ? [= <-]. split; [by left|].
        split; [cbn; rewrite count_events_app, Hnoconn; cbn; lia|].
        split; [by intros ? [=]|]. split; [by intros _ [=]|]. split.
        -- intros ready [[[=] _]|[_ [= <-]]]. cbn. rewrite Hsent. cbn. rewrite Hnow.
           split; [done|]. by intros ? [=].
        -- intros _. split; [cbn; rewrite count_events_app, Hnowrite; done|].
           set_solver.
      * exists (GetConnected :: CallConnect :: cd
                ++ [DbWrite (db_number self) 0 bs]).
        rewrite Htr1.
        split; [solve_trace|]. split; [by intros ? [=]|].
        intros ? [= <-]. split; [by right|].
        split; [cbn; rewrite count_events_app, Hnoconn; cbn; lia|].
        split; [by intros ? [=]|]. split; [by intros _ [=]|]. split.
        -- intros ready [[[=] _]|[_ [= <-]]]. cbn. rewrite Hsent. cbn.
           split; [by intros [=]|done].
        -- by intros [=].
    + exists (GetConnected :: CallConnect :: cd). rewrite Htr1.
      split; [solve_trace|]. split; [by intros ? [=]|].
      intros ? [= <-]. split; [by right|].
      split; [cbn; rewrite Hnoconn; lia|].
      split; [by intros ? [=]|]. split; [|split].
      * intros _ _. split; [done|]. cbn. done.
      * intros ready [[[=] _]|[_ [=]]].
      * by intros [=].
  - (* the state check raised *)
    exists [GetConnected].
    split; [solve_trace|]. split; [by intros ? [=]|].
    intros ? [= <-]. split; [by right|]. split; [cbn; lia|].
    split; [intros; by rewrite <- app_assoc|]. split; [by intros [=]|]. split.
    + intros ready [[[=] _]|[[=] _]].
    + by intros [=].
Qed.

(** What holds of [read] in every world: it checks the state first,
    calls [connect] at most twice, and once the first attempt has
    failed it returns false without reading the block, whatever the
    second attempt achieves. *)
Lemma read_connect_attempts (self : PLCConnection) (w : World Env) :
  let run := Connection.read self w in
  let checked :=
    mkWorld (get_connected (env w)).2 (data_store w)
            (trace w ++ [GetConnected]) in
  exists delta,
    trace run.2 = trace w ++ GetConnected :: delta
    /\ (count_events is_connect_call delta <= 2)%nat
    /\ ((get_connected (env w)).1 <> Ok true ->
        (Connection.connect self checked).1 = Ok false ->
        run.1 = Ok false /\ count_events is_db_read delta = 0%nat).
Proof.
  destruct w as [e0 d tr]. cbn [env data_store trace]. cbv zeta.
  unfold Connection.read, store_from_bytes, get_store, try, emit, call, clock.
  unfold mbind, M_bind, mret, M_ret. cbn.
  destruct (get_connected e0) as [[[|]|ex] e1]; cbn.
  - (* connected *)
    destruct (db_read _ _ _ e1) as [[data|ex] e2]; cbn;
      [destruct (from_bytes d data) as [[[]|ex] d2]; cbn;
       [destruct (now e2) as [t e3]; cbn;
        match goal with
        | |- context [last_connected_setter t ?w0] =>
            destruct (last_connected_setter_spec t w0) as (w' & -> & Htr & _)
        end; cbn; rewrite Htr|]|];
      (eexists; split; [solve_trace|]; split; [cbn; lia|by intros []]).
  - (* not connected *)
    match goal with
    | |- context [Connection.connect self ?w0] =>
        destruct (connect_spec self w0) as (ok & w1 & cd & Hc & Htr1 & Hsess & _)
    end.
    rewrite Hc. cbn.
    assert (Hnoconn : count_events is_connect_call cd = 0%nat)
      by (apply count_session_events; [by intros []|done]).
    assert (Hnoread : count_events is_db_read cd = 0%nat)
      by (apply count_session_events; [by intros []|done]).
    destruct ok; cbn.
    + destruct (db_read _ _ _ (env w1)) as [[data|ex] e2]; cbn;
        [destruct (from_bytes (data_store w1) data) as [[[]|ex] d2]; cbn;
         [destruct (now e2) as [t e3]; cbn;
          match goal with
          | |- context [last_connected_setter t ?w0] =>
              destruct (last_connected_setter_spec t w0) as (w' & -> & Htr & _)
          end; cbn; rewrite Htr|]|];
        rewrite Htr1;
        (eexists; split; [solve_trace|]; split;
         [cbn; rewrite count_events_app, Hnoconn; cbn; lia|by intros _ [=]]).
    + destruct (connect_spec self w1) as (ok2 & w2 & cd2 & Hc2 & Htr2 & Hsess2 & _).
      rewrite Hc2. cbn.
      assert (Hnoconn2 : count_events is_connect_call cd2 = 0%nat)
        by (apply count_session_events; [by intros []|done]).
      assert (Hnoread2 : count_events is_db_read cd2 = 0%nat)
        by (apply count_session_events; [by intros []|done]).
      exists (CallConnect :: cd ++ CallConnect :: cd2). rewrite Htr2, Htr1.
      split; [solve_trace|].
      split; [cbn; rewrite count_events_app; cbn; rewrite Hnoconn, Hnoconn2; lia|].
      intros _ _. split; [done|].
      cbn. rewrite count_events_app. cbn. rewrite Hnoread, Hnoread2. done.
  - (* the state check raised: treated as not connected *)
    match goal with
    | |- context [Connection.connect self ?w0] =>
        destruct (connect_spec self w0) as (ok & w1 & cd & Hc & Htr1 & Hsess & _)
    end.
    rewrite Hc. cbn.
    assert (Hnoconn : count_events is_connect_call cd = 0%nat)
      by (apply count_session_events; [by intros []|done]).
    assert (Hnoread : count_events is_db_read cd = 0%nat)
      by (apply count_session_events; [by intros []|done]).
    destruct ok; cbn.
    + destruct (db_read _ _ _ (env w1)) as [[data|ex'] e2]; cbn;
        [destruct (from_bytes (data_store w1) data) as [[[]|ex'] d2]; cbn;
         [destruct (now e2) as [t e3]; cbn;
          match goal with
          | |- context [last_connected_setter t ?w0] =>
              destruct (last_connected_setter_spec t w0) as (w' & -> & Htr & _)
          end; cbn; rewrite Htr|]|];
        rewrite Htr1;
        (eexists; split; [solve_trace|]; split;
         [cbn; rewrite count_events_app, Hnoconn; cbn; lia|by intros _ [=]]).
    + destruct (connect_spec self w1) as (ok2 & w2 & cd2 & Hc2 & Htr2 & Hsess2 & _).
      rewrite Hc2. cbn.
      assert (Hnoconn2 : count_events is_connect_call cd2 = 0%nat)
        by (apply count_session_events; [by intros []|done]).
      assert (Hnoread2 : count_events is_db_read cd2 = 0%nat)
        by (apply count_session_events; [by intros []|done]).
      exists (CallConnect :: cd ++ CallConnect :: cd2). rewrite Htr2, Htr1.
      split; [solve_trace|].
      split; [cbn; rewrite count_events_app; cbn; rewrite Hnoconn, Hnoconn2; lia|].
      intros _ _. split; [done|].
      cbn. rewrite count_events_app. cbn. rewrite Hnoread, Hnoread2. done.
Qed.
End ManagerFacts.

(** C6 as stated fails: the state check raises, the probe would have
    succeeded, and yet [connect] returns false without probing and
    without a handshake. *)
Lemma connect_state_check_counterexample :
  (get_connected (env flaky_world)).1 = Raise TransportError
  /\ (create_connection (ip_address example_connection) (port example_connection)
        (connect_timeout example_connection)
        (get_connected (env flaky_world)).2).1 = Ok ()
  /\ (Connection.connect example_connection flaky_world).1 = Ok false
  /\ trace (Connection.connect example_connection flaky_world).2
     = [CallConnect; GetConnected].
Proof. vm_compute. repeat split. Qed.

Lemma connect_state_check_raises_witness :
  Connection.connect example_connection flaky_world
  = (Ok false,
     mkWorld (get_connected (env flaky_world)).2 (data_store flaky_world)
             (trace flaky_world ++ [CallConnect; GetConnected])).
Proof.
  apply (connect_state_check_raises example_connection flaky_world TransportError).
  reflexivity.
Defined.

(** C5 on a failing input.  The handle is not connected and the first
    [connect] fails at the probe; the second [connect] succeeds, so the
    handle is connected when [read] returns.  [read] has called
    [connect] twice, has not read the block, and returns false. *)
Theorem read_discards_second_connect :
  let run := Connection.read example_connection second_chance_world in
  run.1 = Ok false
  /\ trace run.2
     = [GetConnected;
        CallConnect; GetConnected; CreateConnection;
        CallConnect; GetConnected; CreateConnection; ClientConnect;
        CallLater 2]
  /\ count_events is_connect_call (trace run.2) = 2%nat
  /\ count_events is_db_read (trace run.2) = 0%nat
  /\ (get_connected (env run.2)).1 = Ok true
  /\ _values (data_store run.2) = _values (data_store second_chance_world).
Proof. vm_compute. repeat split. Qed.

(** C7 as stated fails: on a failing state check [read] goes on to
    [connect] and reads the block, and so would a write path that checks
    connectivity the way [read] does; [write] returns false with no
    [connect] attempt and no block write. *)
Lemma write_state_check_counterexample :
  (Connection.read example_connection flaky_world).1 = Ok true
  /\ (write_as_claimed example_connection flaky_world).1 = Ok true
  /\ count_events is_connect_call
       (trace (write_as_claimed example_connection flaky_world).2) = 1%nat
  /\ (Connection.write example_connection flaky_world).1 = Ok false
  /\ trace (Connection.write example_connection flaky_world).2
     = [ToBytes; GetConnected]
  /\ Connection.write example_connection flaky_world
     <> write_as_claimed example_connection flaky_world.
Proof.
  assert (Hw : (Connection.write example_connection flaky_world).1 = Ok false)
    by (vm_compute; reflexivity).
  assert (Hc : (write_as_claimed example_connection flaky_world).1 = Ok true)
    by (vm_compute; reflexivity).
  repeat split; try (vm_compute; reflexivity).
  intros Heq. rewrite Heq, Hc in Hw. discriminate Hw.
Qed.

Lemma write_protocol_witness :
  exists delta,
    trace (Connection.write example_connection (sim_world [] [] [])).2
    = ToBytes :: delta
    /\ (count_events is_connect_call delta <= 1)%nat.
Proof.
  destruct (write_protocol example_connection (sim_world [] [] []))
    as (delta & Htr & _ & Hok).
  destruct (to_bytes (data_store (sim_world [] [] []))) as [bs|ex] eqn:Hbs.
  - destruct (Hok bs eq_refl) as (_ & Hcount & _).
    exists delta. split; [exact Htr|exact Hcount].
  - vm_compute in Hbs. discriminate Hbs.
Defined.

(** * Further properties *)

(** ** Coercion and the field codecs *)

Lemma clamp_idempotent (signed : bool) (n : Z) :
  _clamp signed (_clamp signed n) = _clamp signed n.
Proof. unfold _clamp. destruct signed; lia. Qed.

(** X1.  Coercion is idempotent: what [coerce] returns is a legal
    stored value of the field, and coercing it again changes nothing. *)
Theorem coerce_idempotent (f : PLCField) (v c : pyval) :
  coerce f v = Ok c -> coerce f c = Ok c /\ stored_value f c.
Proof.
  intros Hc. split; [|by apply (coerce_stored f v)].
  destruct f as [off bit d s|off d sg s|off d s]; cbn [coerce] in *.
  - injection Hc as <-. by destruct (py_bool v).
  - destruct (py_int v) as [n|]; [|done]. rewrite bind_Ok in Hc.
    injection Hc as <-. cbn [py_int]. by rewrite bind_Ok, clamp_idempotent.
  - destruct (py_float v) as [x|]; [|done]. rewrite bind_Ok in Hc.
    by injection Hc as <-.
Qed.

Lemma coerce_idempotent_witness :
  coerce (PLCWordField 4 0 true false) (VInt (- 32768)) = Ok (VInt (- 32768))
  /\ stored_value (PLCWordField 4 0 true false) (VInt (- 32768)).
Proof.
  apply (coerce_idempotent (PLCWordField 4 0 true false) (VInt (- 70000))).
  reflexivity.
Defined.

Lemma write_via_coerce (f : PLCField) (buf : list byte) (v : pyval) :
  write f buf v = (c ← coerce f v; write f buf c).
Proof.
  destruct f as [off bit d s|off d sg s|off d s]; unfold write, coerce.
  - rewrite !bind_Ok. by destruct (py_bool v).
  - destruct (py_int v) as [n|]; [|done]. rewrite !bind_Ok. cbn [py_int].
    by rewrite bind_Ok, clamp_idempotent.
  - destruct (py_float v) as [x|]; [|done]. by rewrite !bind_Ok.
Qed.

(** X2.  [write] sees a value only through [coerce]: encoding a value
    is encoding its coercion, and a value that [coerce] rejects is
    rejected by [write] with the same exception. *)
Theorem write_coerces_first (f : PLCField) (buf : list byte) (v : pyval) :
  write f buf v = (c ← coerce f v; write f buf c)
  /\ (forall e, coerce f v = Raise e -> write f buf v = Raise e).
Proof.
  split; [apply write_via_coerce|].
  intros e He. by rewrite write_via_coerce, He.
Qed.

Lemma write_coerces_first_witness :
  write (PLCWordField 0 0 false false) [x00; x00] (VFloat S754_nan)
  = Raise ValueError.
Proof.
  apply (proj2 (write_coerces_first (PLCWordField 0 0 false false) [x00; x00]
                  (VFloat S754_nan))).
  reflexivity.
Defined.

(** X3.  For bit and word fields decoding undoes encoding up to
    coercion, for every Python number: after [write] of any value that
    [coerce] accepts, [read] returns the coerced value. *)
Theorem read_after_write_coerces (f : PLCField) (buf : list byte) (v c : pyval) :
  wf_field f -> byte_offset f + size f <= blen buf ->
  (forall off d s, f <> PLCRealField off d s) ->
  coerce f v = Ok c ->
  exists buf',
    write f buf v = Ok buf'
    /\ length buf' = length buf
    /\ forall current, read f buf' current = Ok c.
Proof.
  intros Hwf Hfit Hkind Hc.
  assert (Hin : in_range f c).
  { pose proof (coerce_stored f v c Hc) as Hst.
    destruct f as [? ? ? ?|? ? ? ?|off d s]; [done|done|]. by destruct (Hkind off d s). }
  destruct (write_decodes f buf c Hwf Hfit Hin) as (buf' & Hw & Hdec).
  exists buf'. rewrite write_via_coerce, Hc, bind_Ok.
  split; [done|]. split; [|done].
  by destruct (write_frame f buf buf' c Hwf Hfit Hw).
Qed.

Lemma read_after_write_coerces_witness :
  exists buf',
    write (PLCWordField 1 0 true false) [x00; x00; x00]
          (VFloat (S754_finite true 7 (- 1))) = Ok buf'
    /\ length buf' = 3%nat
    /\ forall current,
         read (PLCWordField 1 0 true false) buf' current = Ok (VInt (- 3)).
Proof.
  apply (read_after_write_coerces (PLCWordField 1 0 true false) [x00; x00; x00]).
  - split; [cbn; lia|done].
  - unfold blen. cbn. lia.
  - intros off d s. discriminate.
  - reflexivity.
Defined.

(** X4.  Decoding a field of the data model never raises, whatever the
    bytes are (short buffers, every 32-bit pattern of a real), and the
    value it returns is a legal stored value whenever the current one
    is. *)
Theorem read_never_raises (f : PLCField) (raw : list byte) (current : pyval) :
  wf_field f ->
  exists v, read f raw current = Ok v
            /\ (stored_value f current -> stored_value f v).
Proof.
  intros Hwf. destruct (read_total f raw current Hwf) as (v & Hv).
  exists v. split; [done|]. intros Hcur. by apply (read_stored f raw current).
Qed.

Lemma read_never_raises_witness :
  exists v,
    read (PLCRealField 0 (S754_zero false) false) [xff; xff; xff; xff] (VFloat S754_nan)
    = Ok v.
Proof.
  destruct (read_never_raises (PLCRealField 0 (S754_zero false) false)
              [xff; xff; xff; xff] (VFloat S754_nan)) as (v & Hv & _).
  - split; [cbn; lia|done].
  - by exists v.
Defined.

(** ** The wire layout *)

Lemma getslice_two (buf : list byte) (off : Z) (b0 b1 : byte) :
  0 <= off ->
  buf !! Z.to_nat off = Some b0 -> buf !! (Z.to_nat off + 1)%nat = Some b1 ->
  getslice buf off (off + 2) = [b0; b1].
Proof.
  intros Hoff H0 H1.
  assert (Hlen : (Z.to_nat off + 1 < length buf)%nat)
    by (apply lookup_lt_is_Some; eauto).
  rewrite getslice_in by (unfold blen; lia).
  apply list_eq. intros [|[|i]].
  - rewrite lookup_take_lt, lookup_drop, Nat.add_0_r by (cbn; lia). done.
  - rewrite lookup_take_lt, lookup_drop by (cbn; lia). done.
  - rewrite lookup_take_ge by (cbn; lia). done.
Qed.

Lemma setslice_inside (l bs : list byte) (a : Z) (j : nat) :
  0 <= a -> a + Z.of_nat (length bs) <= blen l -> (j < length bs)%nat ->
  setslice l a (a + Z.of_nat (length bs)) bs !! (Z.to_nat a + j)%nat = bs !! j.
Proof.
  intros Ha Hl Hj. rewrite setslice_in by lia. unfold blen in Hl.
  rewrite lookup_app_r by (rewrite length_take; lia).
  rewrite length_take, lookup_app_l by lia. f_equal. lia.
Qed.

Lemma int_to_bytes_clamped (sg : bool) (n : Z) :
  int_to_bytes 2 sg (_clamp sg n) = Ok (be_bytes 2 (_clamp sg n mod 65536)).
Proof.
  pose proof (clamp_range sg n) as Hr. unfold int_to_bytes.
  change (8 * Z.of_nat 2) with 16.
  change (2 ^ (16 - 1)) with 32768. change (2 ^ 16) with 65536.
  destruct sg; zcases. by rewrite Z.mod_small by lia.
Qed.

(** X5.  Words travel big-endian.  [read] of a word field returns
    [256 * b0 + b1] for the two bytes at its offset, minus 65536 for a
    signed field when that is 32768 or more; [write] of an integer
    leaves at the offset the high and the low byte of the clamped value
    (two's complement for a negative one). *)
Theorem word_big_endian (off d : Z) (sg s : bool) (buf : list byte) :
  0 <= off -> off + 2 <= blen buf ->
  (forall b0 b1 current,
     buf !! Z.to_nat off = Some b0 -> buf !! (Z.to_nat off + 1)%nat = Some b1 ->
     read (PLCWordField off d sg s) buf current
     = Ok (VInt (let u := 256 * byte_to_Z b0 + byte_to_Z b1 in
                 if sg && (32768 <=? u) then u - 65536 else u)))
  /\ (forall n,
        exists buf' hi lo,
          write (PLCWordField off d sg s) buf (VInt n) = Ok buf'
          /\ buf' !! Z.to_nat off = Some hi
          /\ buf' !! (Z.to_nat off + 1)%nat = Some lo
          /\ 256 * byte_to_Z hi + byte_to_Z lo = _clamp sg n mod 65536).
Proof.
  intros Hoff Hfit. split.
  - intros b0 b1 current H0 H1. unfold read. cbn [size].
    rewrite (getslice_two buf off b0 b1) by done.
    unfold blen, int_from_bytes, be_value. cbn [length fold_left].
    change (8 * blen [b0; b1]) with 16.
    change (2 ^ (16 - 1)) with 32768. change (2 ^ 16) with 65536.
    replace ((0 * 256 + byte_to_Z b0) * 256 + byte_to_Z b1)
      with (256 * byte_to_Z b0 + byte_to_Z b1) by lia.
    done.
  - intros n. unfold write. cbn [py_int size]. change (Z.to_nat 2) with 2%nat.
    rewrite bind_Ok.
    rewrite int_to_bytes_clamped, bind_Ok.
    set (c := _clamp sg n) in *.
    pose proof (Z.mod_pos_bound c 65536 eq_refl) as Hu.
    set (u := c mod 65536) in *.
    exists (setslice buf off (off + 2) (be_bytes 2 u)),
           (byte_wrap (u / 256 ^ Z.of_nat 1)), (byte_wrap (u / 256 ^ Z.of_nat 0)).
    split; [done|].
    pose proof (setslice_inside buf (be_bytes 2 u) off 0) as Hhi.
    pose proof (setslice_inside buf (be_bytes 2 u) off 1) as Hlo.
    rewrite be_bytes_length in Hhi, Hlo. change (Z.of_nat 2) with 2 in Hhi, Hlo.
    rewrite Nat.add_0_r in Hhi.
    split; [apply Hhi; lia|]. split; [apply Hlo; lia|].
    rewrite !byte_wrap_to_Z. change (256 ^ Z.of_nat 1) with 256.
    change (256 ^ Z.of_nat 0) with 1. rewrite Z.div_1_r.
    rewrite (Z.mod_small (u / 256) 256)
      by (split; [apply Z.div_pos; lia|apply Z.div_lt_upper_bound; lia]).
    pose proof (Z.div_mod u 256 ltac:(lia)). lia.
Qed.

Lemma word_big_endian_witness :
  read (PLCWordField 1 0 true false) [x00; xff; xfe] (VInt 0) = Ok (VInt (- 2)).
Proof.
  apply (proj1 (word_big_endian 1 0 true false [x00; xff; xfe]
                  ltac:(lia) ltac:(unfold blen; cbn; lia)) xff xfe (VInt 0));
    reflexivity.
Defined.

(** ** Outside the data model *)

Lemma lor_high_bit (old bit : Z) :
  0 <= old -> 8 <= bit -> 256 <= Z.lor old (Z.shiftl 1 bit).
Proof.
  intros Hold Hbit.
  assert (H0 : 0 <= Z.lor old (Z.shiftl 1 bit)).
  { apply Z.lor_nonneg. split; [done|]. apply Z.shiftl_nonneg. lia. }
  destruct (Z.lt_ge_cases (Z.lor old (Z.shiftl 1 bit)) 256) as [Hlt|]; [|done].
  assert (Hb : Z.testbit (Z.lor old (Z.shiftl 1 bit)) bit = true).
  { rewrite Z.lor_spec, Z.shiftl_1_l, Z.pow2_bits_eqb, Z.eqb_refl by lia.
    apply orb_true_r. }
  rewrite <- (Z.mod_small _ (2 ^ 8)) in Hb by (change (2 ^ 8) with 256; lia).
  rewrite Z.mod_pow2_bits_high in Hb by lia. done.
Qed.

Lemma land_high_mask (b : byte) (bit : Z) :
  8 <= bit ->
  Z.land (byte_to_Z b) (Z.land (Z.lnot (Z.shiftl 1 bit)) 255) = byte_to_Z b.
Proof.
  intros Hbit. apply Z.bits_inj'. intros k Hk.
  rewrite !Z.land_spec, Z.lnot_spec, Z.shiftl_1_l, Z.pow2_bits_eqb, testbit_255 by lia.
  destruct (Z.ltb_spec k 8).
  - destruct (Z.eqb_spec bit k); [lia|]. cbn. by rewrite andb_true_r.
  - rewrite byte_bits_high by lia. done.
Qed.

(** X6.  A bit offset beyond 7 lies outside the byte: such a field
    always reads 0, storing a false value leaves the buffer as it is,
    and storing a true value raises [ValueError] (the byte would
    exceed 255). *)
Theorem bit_offset_beyond_byte (off bit : Z) (d s : bool) (buf : list byte)
  (v current : pyval) :
  0 <= off < blen buf -> 8 <= bit ->
  read (PLCBoolField off bit d s) buf current = Ok (VInt 0)
  /\ (py_bool v = false -> write (PLCBoolField off bit d s) buf v = Ok buf)
  /\ (py_bool v = true -> write (PLCBoolField off bit d s) buf v = Raise ValueError).
Proof.
  intros Hoff Hbit.
  destruct (getitem_in buf off Hoff) as (b & Hb & Hget).
  pose proof (byte_to_Z_range b) as Hr.
  split; [|split].
  - rewrite (read_bool off bit d s buf b) by (done || lia).
    by rewrite byte_bits_high.
  - intros Hv. unfold write, coerce, py_shiftl. rewrite Hv, bind_Ok.
    destruct (Z.ltb_spec bit 0); [lia|]. rewrite bind_Ok, Hget, bind_Ok.
    cbn [py_bool Z.eqb negb]. rewrite land_high_mask by done.
    unfold setitem. rewrite py_index_in by done. rewrite bind_Ok.
    destruct (byte_of_Z_ok (byte_to_Z b) Hr) as (b' & -> & Hb').
    apply byte_to_Z_inj in Hb' as ->. rewrite bind_Ok.
    by rewrite list_insert_id.
  - intros Hv. unfold write, coerce, py_shiftl. rewrite Hv, bind_Ok.
    destruct (Z.ltb_spec bit 0); [lia|]. rewrite bind_Ok, Hget, bind_Ok.
    cbn [py_bool Z.eqb negb].
    unfold setitem. rewrite py_index_in by done. rewrite bind_Ok.
    pose proof (lor_high_bit (byte_to_Z b) bit ltac:(lia) Hbit) as Hbig.
    unfold byte_of_Z. destruct (Z.ltb_spec (Z.lor (byte_to_Z b) (Z.shiftl 1 bit)) 0); [done|].
    destruct (Byte.of_N _) as [b'|] eqn:E; [|done].
    apply Byte.to_of_N in E. pose proof (Byte.to_N_bounded b'). lia.
Qed.

Lemma bit_offset_beyond_byte_witness :
  read (PLCBoolField 0 9 false false) [xff] (VInt 1) = Ok (VInt 0)
  /\ write (PLCBoolField 0 9 false false) [xff] (VInt 5) = Raise ValueError.
Proof.
  destruct (bit_offset_beyond_byte 0 9 false false [xff] (VInt 5) (VInt 1))
    as (Hread & _ & Hwrite).
  - unfold blen. cbn. lia.
  - lia.
  - split; [exact Hread|]. apply Hwrite. reflexivity.
Defined.

(** X7.  Writing into a buffer that is too short for the field.  A bit
    field whose byte is missing raises [IndexError].  A word or real
    field does not raise: the slice assignment makes the buffer end
    with the encoded bytes, keeping the bytes before the offset (all of
    them when the offset lies beyond the end), so the buffer grows. *)
Theorem write_into_short_buffer (f : PLCField) (buf : list byte) (v : pyval) :
  wf_field f -> blen buf < byte_offset f + size f -> encodable f v ->
  match f with
  | PLCBoolField _ _ _ _ => write f buf v = Raise IndexError
  | _ =>
      exists bs,
        Z.of_nat (length bs) = size f
        /\ write f buf v = Ok (take (Z.to_nat (byte_offset f)) buf ++ bs)
        /\ (length buf < length (take (Z.to_nat (byte_offset f)) buf ++ bs))%nat
  end.
Proof.
  intros [Hoff Hbit] Hshort [Hst Hpack].
  assert (Hslice : forall bs k, blen buf < byte_offset f + k -> 0 < k ->
            Z.of_nat (length bs) = k ->
            setslice buf (byte_offset f) (byte_offset f + k) bs
            = take (Z.to_nat (byte_offset f)) buf ++ bs
            /\ (length buf < length (take (Z.to_nat (byte_offset f)) buf ++ bs))%nat).
  { intros bs k Hk Hpos Hbs. unfold setslice, slice_bound, blen in *.
    split.
    - zcases. rewrite (drop_ge buf) by lia. rewrite app_nil_r. f_equal.
      destruct (Z.le_gt_cases (byte_offset f) (Z.of_nat (length buf))).
      + f_equal. lia.
      + rewrite !take_ge by lia. done.
    - rewrite length_app, length_take. lia. }
  destruct f as [off bit d s|off d sg s|off d s]; cbn [byte_offset size] in *.
  - unfold write, coerce, py_shiftl. rewrite bind_Ok.
    destruct (Z.ltb_spec bit 0); [lia|]. rewrite bind_Ok.
    unfold getitem, py_index.
    destruct (Z.ltb_spec off 0); [lia|].
    destruct (Z.ltb_spec off 0); [lia|].
    destruct (Z.leb_spec (blen buf) off); [|lia]. done.
  - destruct Hst as (n & -> & Hn). unfold write. cbn [py_int size].
    change (Z.to_nat 2) with 2%nat. rewrite bind_Ok, int_to_bytes_clamped, bind_Ok.
    exists (be_bytes 2 (_clamp sg n mod 65536)).
    split; [by rewrite be_bytes_length|].
    destruct (Hslice (be_bytes 2 (_clamp sg n mod 65536)) 2) as [-> Hlen];
      [done|lia|by rewrite be_bytes_length|]. done.
  - destruct Hst as (x & ->). unfold write. cbn [py_float size]. rewrite bind_Ok.
    specialize (Hpack x eq_refl). unfold fits_binary32 in Hpack.
    unfold pack_f. rewrite Hpack, bind_Ok.
    exists (be_bytes 4 (bits_of_b32 (round32 x))).
    split; [by rewrite be_bytes_length|].
    destruct (Hslice (be_bytes 4 (bits_of_b32 (round32 x))) 4) as [-> Hlen];
      [done|lia|by rewrite be_bytes_length|]. done.
Qed.

Lemma write_into_short_buffer_witness :
  exists bs,
    Z.of_nat (length bs) = 2
    /\ write (PLCWordField 5 0 false false) [x01; x02] (VInt 258)
       = Ok ([x01; x02] ++ bs)
    /\ (2 < length ([x01; x02] ++ bs))%nat.
Proof.
  apply (write_into_short_buffer (PLCWordField 5 0 false false) [x01; x02] (VInt 258)).
  - split; [cbn; lia|done].
  - unfold blen. cbn. lia.
  - split; [|done]. exists 258. split; [reflexivity|lia].
Defined.

(** ** The schema built by the metaclass *)

Lemma od_set_keys (name : string) (field : PLCField) (fields : schema) :
  (od_set name field fields).*1
  = if decide (name ∈ fields.*1) then fields.*1 else fields.*1 ++ [name].
Proof.
  induction fields as [|[n f] rest IH]; cbn [od_set].
  - rewrite decide_False by apply not_elem_of_nil. done.
  - destruct (String.eqb_spec n name) as [->|Hne]; cbn.
    + rewrite decide_True by (apply elem_of_cons; by left). done.
    + rewrite IH. destruct (decide (name ∈ rest.*1)) as [Hin|Hnin].
      * rewrite decide_True by (apply elem_of_cons; by right). done.
      * rewrite decide_False; [done|].
        intros [->|Hin]%elem_of_cons; done.
Qed.

Lemma od_set_NoDup (name : string) (field : PLCField) (fields : schema) :
  NoDup fields.*1 -> NoDup (od_set name field fields).*1.
Proof.
  intros Hnd. rewrite od_set_keys. destruct (decide (name ∈ fields.*1)); [done|].
  apply NoDup_app. split; [done|]. split; [|apply NoDup_singleton].
  intros x Hx ->%list_elem_of_singleton. done.
Qed.

Lemma od_set_prefix (name : string) (field : PLCField) (fields : schema) :
  fields.*1 `prefix_of` (od_set name field fields).*1.
Proof.
  rewrite od_set_keys. destruct (decide (name ∈ fields.*1)); [done|].
  by apply prefix_app_r.
Qed.

Lemma od_get_cons (n name : string) (f : PLCField) (fields : schema) :
  od_get ((n, f) :: fields) name
  = if decide (n = name) then Some f else od_get fields name.
Proof.
  unfold od_get. cbn [find].
  destruct (String.eqb_spec n name); [by rewrite decide_True|by rewrite decide_False].
Qed.

Lemma od_get_set (name m : string) (field : PLCField) (fields : schema) :
  od_get (od_set name field fields) m
  = if decide (name = m) then Some field else od_get fields m.
Proof.
  induction fields as [|[n f] rest IH]; cbn [od_set].
  - rewrite od_get_cons. by destruct (decide (name = m)).
  - destruct (String.eqb_spec n name) as [->|Hne]; rewrite !od_get_cons.
    + by destruct (decide (name = m)).
    + rewrite IH. destruct (decide (n = m)) as [->|]; [|done].
      by rewrite decide_False.
Qed.

Lemma od_get_app (fields other : schema) (name : string) :
  od_get (fields ++ other) name
  = match od_get fields name with
    | Some f => Some f
    | None => od_get other name
    end.
Proof.
  induction fields as [|[n f] rest IH]; [done|]. cbn [app].
  rewrite !od_get_cons. by destruct (decide (n = name)).
Qed.

Lemma od_update_NoDup (fields other : schema) :
  NoDup fields.*1 -> NoDup (od_update fields other).*1.
Proof.
  revert fields. unfold od_update.
  induction other as [|[n f] rest IH]; intros fields Hnd; [done|].
  cbn [fold_left]. apply IH. by apply od_set_NoDup.
Qed.

Lemma od_update_prefix (fields other : schema) :
  fields.*1 `prefix_of` (od_update fields other).*1.
Proof.
  revert fields. unfold od_update.
  induction other as [|[n f] rest IH]; intros fields; [done|].
  cbn [fold_left]. etrans; [apply od_set_prefix|apply IH].
Qed.

Lemma od_get_update (fields other : schema) (name : string) :
  od_get (od_update fields other) name
  = match od_get (reverse other) name with
    | Some f => Some f
    | None => od_get fields name
    end.
Proof.
  revert fields. unfold od_update.
  induction other as [|[n f] rest IH]; intros fields; [done|].
  cbn [fold_left]. rewrite IH, reverse_cons, od_get_app, od_get_set, od_get_cons.
  destruct (od_get (reverse rest) name); [done|].
  by destruct (decide (n = name)).
Qed.

Lemma bases_NoDup (bases : list schema) (fields : schema) :
  NoDup fields.*1 -> NoDup (fold_left od_update bases fields).*1.
Proof.
  revert fields. induction bases as [|b bases IH]; intros fields Hnd; [done|].
  cbn [fold_left]. apply IH. by apply od_update_NoDup.
Qed.

(** X8.  Whatever the bases and the class body declare, the schema the
    metaclass builds has pairwise distinct field names. *)
Theorem schema_names_unique (bases : list schema) (namespace : schema) :
  NoDup (PLCDataMeta_new bases namespace).*1.
Proof.
  unfold PLCDataMeta_new. apply od_update_NoDup, bases_NoDup. constructor.
Qed.

(** X9.  Inheritance.  A name declared in the class body denotes the
    field of its last declaration there and shadows an inherited field
    of that name; any other name denotes what it denotes in the bases.
    The inherited names come first, in their inherited order: an
    overriding field takes the place of the field it overrides. *)
Theorem schema_override_and_order (bases : list schema) (namespace : schema) :
  let inherited := fold_left od_update bases [] in
  (forall name,
     od_get (PLCDataMeta_new bases namespace) name
     = match od_get (reverse namespace) name with
       | Some f => Some f
       | None => od_get inherited name
       end)
  /\ inherited.*1 `prefix_of` (PLCDataMeta_new bases namespace).*1.
Proof.
  split.
  - intros name. apply od_get_update.
  - apply od_update_prefix.
Qed.

(** ** Construction of a record *)









(** ** [set_data] *)



(** X12.  Arguments that change nothing.  When every keyword argument
    names no field, names a field that is not settable, or carries a
    value whose coercion equals the current value, [set_data] returns
    normally and leaves the record as it was: no value is stored and no
    subscriber is notified. *)
Theorem set_data_without_change (d : PLCData) (kwargs : list (string * pyval)) :
  Forall (fun '(key, value) => leaves_alone d key value) kwargs ->
  set_data d kwargs = (Ok (), d).
Proof.
  intros Hall. unfold set_data.
  assert (Hl : set_data_loop d kwargs false = (Ok false, d)).
  { induction kwargs as [|[k v] rest IH]; [done|].
    apply Forall_cons in Hall as [Hk Hrest]. cbn [set_data_loop].
    unfold leaves_alone in Hk.
    destruct (od_get (_fields d) k) as [f|]; [|by apply IH].
    destruct Hk as [->|(c & -> & ->)]; [by apply IH|].
    destruct (negb (settable f)); by apply IH. }
  by rewrite Hl.
Qed.

Lemma set_data_without_change_witness :
  set_data sample_record
    [("flow", VInt 7); ("pressure", VFloat (S754_infinity false)); ("status", VInt 5)]
  = (Ok (), sample_record).
Proof.
  apply (set_data_without_change sample_record).
  repeat apply Forall_cons_2; [| | |by apply Forall_nil].
  - exact I.
  - left. reflexivity.
  - right. exists (VInt 1). split; vm_compute; reflexivity.
Defined.





(** ** [from_bytes] on whole records *)

Lemma read_short_buffer (f : PLCField) (raw : list byte) (current : pyval) :
  blen raw < byte_offset f + size f -> read f raw current = Ok current.
Proof.
  intros Hshort. destruct f as [off bit d s|off d sg s|off d s]; cbn in *.
  - zcases.
  - pose proof (getslice_short raw off 2 ltac:(lia) Hshort). zcases.
  - pose proof (getslice_short raw off 4 ltac:(lia) Hshort). zcases.
Qed.

(** What [read] returns is a fixed point of reading the same bytes. *)
Lemma read_settles (f : PLCField) (raw : list byte) (current v : pyval) :
  read f raw current = Ok v -> read f raw v = Ok v.
Proof.
  destruct f as [off bit d s|off d sg s|off d s]; unfold read.
  - destruct (_ <=? _); [by intros [= <-]|done].
  - destruct (_ <? _); [by intros [= <-]|done].
  - destruct (_ <? _); [by intros [= <-]|].
    by destruct (unpack_f _) as [x|[]].
Qed.

Lemma from_bytes_loop_spec (fields : schema) (raw : list byte) :
  forall vals vals' : gmap string pyval,
    NoDup fields.*1 ->
    from_bytes_loop fields raw vals = (Ok (), vals') ->
    Forall (fun '(name, f) =>
              exists v,
                read f raw (from_option id (default f) (vals !! name)) = Ok v
                /\ vals' !! name = Some v) fields
    /\ forall name, name ∉ fields.*1 -> vals' !! name = vals !! name.
Proof.
  induction fields as [|[n f] rest IH]; intros vals vals' Hnd; cbn [from_bytes_loop].
  - intros [= <-]. split; [by apply Forall_nil|done].
  - cbn in Hnd. apply NoDup_cons in Hnd as [Hfresh Hnd].
    destruct (read f raw _) as [v|e] eqn:Hr; [|done].
    intros Hl. destruct (IH _ _ Hnd Hl) as [Hall Hkeep]. split.
    + apply Forall_cons. split.
      * exists v. split; [done|]. rewrite Hkeep by done. apply lookup_insert_eq.
      * rewrite Forall_forall in Hall. apply Forall_forall. intros [m g] Hin.
        destruct (Hall _ Hin) as (u & Hu & Hlook). exists u. split; [|done].
        assert (Hne : n <> m).
        { intros ->. apply Hfresh. by apply (list_elem_of_fmap_2 fst) in Hin. }
        by rewrite lookup_insert_ne in Hu.
    + intros m Hm. cbn in Hm. apply not_elem_of_cons in Hm as [Hne Hm].
      rewrite Hkeep by done. by apply lookup_insert_ne.
Qed.

(** X14.  Short buffers, record-wide.  On a well-formed schema
    [from_bytes] accepts a buffer of any length: it returns normally and
    notifies every subscriber once.  Every field that does not fit into
    the buffer keeps its value, so an empty buffer changes no field at
    all (and is still announced); values stored under names that are no
    fields are never touched; and a record that held a legal value for
    every field still does. *)
Theorem from_bytes_short_buffer (d : PLCData) (raw : list byte) :
  wf_schema (_fields d) ->
  exists d',
    from_bytes d raw = (Ok (), d')
    /\ _subscribers d' = map notified (_subscribers d)
    /\ Forall (fun '(name, f) =>
                 blen raw < byte_offset f + size f ->
                 getattr d' name f = getattr d name f) (_fields d)
    /\ (raw = [] ->
        Forall (fun '(name, f) => getattr d' name f = getattr d name f) (_fields d))
    /\ (forall name, name ∉ (_fields d).*1 -> _values d' !! name = _values d !! name)
    /\ (populated d -> populated d').
Proof.
  intros [Hnd Hwf].
  destruct (from_bytes_loop_total (_fields d) raw (_values d) Hwf) as (vals' & Hl).
  destruct (from_bytes_loop_spec _ _ _ _ Hnd Hl) as [Hall Hkeep].
  eexists. unfold from_bytes. rewrite Hl. split; [reflexivity|].
  rewrite notify_subscribers_queues. cbn [set_values _subscribers _values _fields
    notify_subscribers set_subscribers].
  split; [done|].
  assert (Hshort : Forall (fun '(name, f) =>
            blen raw < byte_offset f + size f ->
            from_option id (default f) (vals' !! name) = getattr d name f) (_fields d)).
  { eapply Forall_impl; [exact Hall|]. intros [n f] (v & Hv & Hlook) Hlen.
    rewrite (read_short_buffer f raw _ Hlen) in Hv. injection Hv as <-.
    by rewrite Hlook. }
  split; [exact Hshort|]. split; [|split; [exact Hkeep|]].
  - intros ->. rewrite Forall_forall in Hshort, Hwf. apply Forall_forall.
    intros [n f] Hin. apply (Hshort _ Hin). destruct (Hwf _ Hin) as [Hoff _].
    pose proof (size_pos f). unfold blen. cbn. lia.
  - unfold populated. cbn. intros Hpop.
    rewrite Forall_forall in Hpop, Hall. apply Forall_forall. intros [n f] Hin.
    destruct (Hall _ Hin) as (v & Hv & Hlook). exists v. split; [done|].
    destruct (Hpop _ Hin) as (u & Hu & Hst). rewrite Hu in Hv. cbn in Hv.
    by apply (read_stored f raw u v).
Qed.

Lemma from_bytes_short_buffer_witness :
  exists d',
    from_bytes (data_store frozen_world) [] = (Ok (), d')
    /\ _subscribers d' = map notified (_subscribers (data_store frozen_world))
    /\ Forall (fun '(name, f) =>
                 getattr d' name f = getattr (data_store frozen_world) name f)
              MyPLCData.
Proof.
  destruct (from_bytes_short_buffer (data_store frozen_world) [])
    as (d' & Hrun & Hsubs & _ & Hempty & _).
  - exact sample_record_wf.
  - exists d'. split; [exact Hrun|]. split; [exact Hsubs|]. apply Hempty. reflexivity.
Defined.

(** X15.  Decoding is idempotent on values.  On a well-formed schema,
    decoding the same buffer a second time stores exactly the values
    the first pass stored; only the subscribers hear of it twice. *)
Theorem from_bytes_idempotent (d : PLCData) (raw : list byte) :
  wf_schema (_fields d) ->
  exists d1 d2,
    from_bytes d raw = (Ok (), d1)
    /\ from_bytes d1 raw = (Ok (), d2)
    /\ _values d2 = _values d1
    /\ _subscribers d2 = map notified (map notified (_subscribers d)).
Proof.
  intros [Hnd Hwf].
  destruct (from_bytes_loop_total (_fields d) raw (_values d) Hwf) as (vals1 & Hl1).
  destruct (from_bytes_loop_total (_fields d) raw vals1 Hwf) as (vals2 & Hl2).
  destruct (from_bytes_loop_spec _ _ _ _ Hnd Hl1) as [Hall1 Hkeep1].
  destruct (from_bytes_loop_spec _ _ _ _ Hnd Hl2) as [Hall2 Hkeep2].
  do 2 eexists. unfold from_bytes. rewrite Hl1. split; [reflexivity|].
  cbn [notify_subscribers set_values set_subscribers _fields _values _subscribers].
  rewrite Hl2. split; [reflexivity|].
  cbn [notify_subscribers set_values set_subscribers _fields _values _subscribers].
  split.
  - apply map_eq. intros n. destruct (decide (n ∈ (_fields d).*1)) as [Hin|Hout].
    + apply list_elem_of_fmap in Hin as ([m f] & -> & Hin). cbn.
      rewrite Forall_forall in Hall1, Hall2.
      destruct (Hall1 _ Hin) as (v1 & Hv1 & Hlook1).
      destruct (Hall2 _ Hin) as (v2 & Hv2 & Hlook2).
      rewrite Hlook1 in Hv2. cbn in Hv2.
      rewrite (read_settles f raw _ v1 Hv1) in Hv2. congruence.
    + by apply Hkeep2.
  - assert (Hn : forall l,
              map (fun q => match put_nowait q InstanceRef with
                            | Ok q' => q'
                            | Raise _ => q
                            end) l = map notified l).
    { intros l. apply map_ext. intros q. unfold put_nowait, notified.
      by destruct (_ && _). }
    by rewrite !Hn.
Qed.

Lemma from_bytes_idempotent_witness :
  exists d1 d2,
    from_bytes sample_record [x41; x20; x00; x00; x00; x2a; x00] = (Ok (), d1)
    /\ from_bytes d1 [x41; x20; x00; x00; x00; x2a; x00] = (Ok (), d2)
    /\ _values d2 = _values d1.
Proof.
  destruct (from_bytes_idempotent sample_record [x41; x20; x00; x00; x00; x2a; x00])
    as (d1 & d2 & H1 & H2 & Hv & _).
  - exact sample_record_wf.
  - exists d1, d2. split; [exact H1|]. split; [exact H2|exact Hv].
Defined.

(** ** Subscriber queues *)

Lemma notified_iter (q : Queue) (n : nat) :
  Nat.iter n notified q
  = mkQueue (maxsize q) (items q ++ replicate (taken_in q n) InstanceRef).
Proof.
  induction n as [|n IH].
  - destruct q as [c l]. unfold taken_in. cbn [Nat.iter nat_rect maxsize items].
    destruct (c =? 0)%nat; cbn; by rewrite app_nil_r.
  - change (Nat.iter (S n) notified q) with (notified (Nat.iter n notified q)).
    rewrite IH. unfold notified, taken_in. cbn [maxsize items].
    rewrite length_app, length_replicate.
    destruct (Nat.eqb_spec (maxsize q) 0) as [Hz|Hz].
    + rewrite Hz. cbn [Nat.ltb Nat.leb andb].
      by rewrite <- app_assoc, <- replicate_S_end.
    + destruct (Nat.ltb_spec 0 (maxsize q)); [|lia]. cbn [andb].
      destruct (Nat.leb_spec (maxsize q)
                  (length (items q) + Nat.min n (maxsize q - length (items q)))).
      * do 3 f_equal. lia.
      * rewrite <- app_assoc, <- replicate_S_end. do 3 f_equal. lia.
Qed.

Lemma notify_subscribers_iter (d : PLCData) (n : nat) :
  Nat.iter n notify_subscribers d
  = set_subscribers d (map (Nat.iter n notified) (_subscribers d)).
Proof.
  induction n as [|n IH].
  - destruct d. unfold set_subscribers. cbn. by rewrite map_id.
  - change (Nat.iter (S n) notify_subscribers d)
      with (notify_subscribers (Nat.iter n notify_subscribers d)).
    rewrite IH. unfold notify_subscribers at 1, set_subscribers. cbn.
    f_equal. rewrite map_map. apply map_ext. intros q.
    change (Nat.iter (S n) notified q) with (notified (Nat.iter n notified q)).
    unfold put_nowait, notified. by destruct (_ && _).
Qed.

(** X16.  Bounded delivery.  [notify_subscribers] never raises and
    touches nothing but the queues.  After [n] notifications every
    queue has kept what it held and taken in one item per notification
    for as long as it had room: a full queue drops the notification
    without holding up the queues behind it.  The queue that
    [subscribe] returns is empty, has capacity 100 and is appended
    behind the present subscribers, so it holds at most 100 pending
    notifications, namely the first [min n 100]. *)
Theorem notifications_bounded (d : PLCData) (n : nat) :
  let d' := Nat.iter n notify_subscribers d in
  _fields d' = _fields d /\ _values d' = _values d
  /\ _last_connected d' = _last_connected d
  /\ _subscribers d'
     = map (fun q => mkQueue (maxsize q)
                       (items q ++ replicate (taken_in q n) InstanceRef))
           (_subscribers d)
  /\ (subscribe d).1 = mkQueue 100 []
  /\ _subscribers (Nat.iter n notify_subscribers (subscribe d).2)
     = _subscribers d'
       ++ [mkQueue 100 (replicate (Nat.min n 100) InstanceRef)].
Proof.
  cbv zeta. rewrite !notify_subscribers_iter.
  unfold subscribe, set_subscribers. cbn [fst snd _fields _values _last_connected
    _subscribers].
  do 3 (split; [done|]). split; [|split; [done|]].
  - apply map_ext. intros q. apply notified_iter.
  - rewrite map_app. cbn [map]. by rewrite (notified_iter (mkQueue 100 [])).
Qed.

(** ** Liveness notifications *)

Section LivenessNotifications.
Context {Env : Type} `{Environment Env}.

Lemma is_connected_eval (w : World Env) :
  is_connected w
  = (Ok (liveness_at (data_store w) (now (env w)).1),
     mkWorld (after_check (data_store w) (env w)) (data_store w) (trace w)).
Proof.
  destruct w as [e d tr]. unfold is_connected, liveness_at, after_check, get_store, clock.
  unfold mbind, M_bind, mret, M_ret. cbn.
  destruct (_last_connected d); [|done]. cbn. by destruct (now e).
Qed.

(** X17.  The setter of [last_connected], run under an event loop,
    never raises.  It records the
    liveness flag it found, stores the timestamp, and notifies the
    subscribers exactly when the flag evaluated after the store differs
    from the one found before: every queue then gets one notification,
    otherwise none.  Schema and values stay as they are, and each call
    arms one timer of [IS_CONNECTED_TIMEOUT] seconds. *)
Theorem setter_notifies_on_flip (t : Z) (w : World Env) :
  let d := data_store w in
  let old := liveness_at d (now (env w)).1 in
  let e1 := after_check d (env w) in
  let new := (now e1).1 - t <=? 2000000 in
  exists w',
    last_connected_setter t w = (Ok (), w')
    /\ env w' = (now e1).2
    /\ trace w' = trace w ++ [CallLater 2]
    /\ _fields (data_store w') = _fields d
    /\ _values (data_store w') = _values d
    /\ _last_connected (data_store w') = Some t
    /\ old_is_connected (data_store w') = old
    /\ _subscribers (data_store w')
       = if eqb old new then _subscribers d else map notified (_subscribers d).
Proof.
  cbv zeta. destruct w as [e d tr]. cbn [env data_store trace].
  unfold last_connected_setter. unfold mbind at 1, M_bind at 1.
  rewrite is_connected_eval. cbn [env data_store trace].
  unfold modify_store, emit, is_connected, get_store, clock.
  unfold mbind, M_bind, mret, M_ret. cbn.
  destruct (now (after_check d e)) as [t2 e2]. cbn.
  change (IS_CONNECTED_TIMEOUT * 1000000) with 2000000.
  destruct (eqb (liveness_at d (now e).1) (t2 - t <=? 2000000)); cbn;
    eexists; (split; [reflexivity|]); cbn; repeat split.
  apply map_ext. intros q. unfold put_nowait, notified. by destruct (_ && _).
Qed.

(** X18.  The timer callback, which only the setter arms once it has
    recorded a flag, never raises and touches neither schema, values,
    timestamp nor the log.  When the recorded flag agrees with
    the current one the record is left as it is.  When they differ
    every queue gets one notification, and the flag recorded is the
    outcome of a second evaluation, made after the notification.  So
    with the clock past the window of a record recorded as live, the
    callback announces the loss once, and a repeated callback finds
    nothing left to announce. *)
Theorem timeout_callback (w : World Env) :
  let d := data_store w in
  let cur := liveness_at d (now (env w)).1 in
  let e1 := after_check d (env w) in
  exists w',
    _on_connection_timeout w = (Ok (), w')
    /\ trace w' = trace w
    /\ _fields (data_store w') = _fields d
    /\ _values (data_store w') = _values d
    /\ _last_connected (data_store w') = _last_connected d
    /\ (old_is_connected d = cur -> data_store w' = d /\ env w' = e1)
    /\ (old_is_connected d <> cur ->
        _subscribers (data_store w') = map notified (_subscribers d)
        /\ old_is_connected (data_store w') = liveness_at d (now e1).1
        /\ env w' = after_check d e1)
    /\ (forall last,
          _last_connected d = Some last -> old_is_connected d = true ->
          2000000 < (now (env w)).1 - last -> 2000000 < (now e1).1 - last ->
          _subscribers (data_store w') = map notified (_subscribers d)
          /\ old_is_connected (data_store w') = false
          /\ forall w'',
               2000000 < (now (env w')).1 - last ->
               _on_connection_timeout w' = (Ok (), w'') ->
               data_store w'' = data_store w').
Proof.
  cbv zeta. destruct w as [e d tr]. cbn [env data_store trace].
  assert (Hrun : forall (e : Env) (d : PLCData) (tr : list event),
            _on_connection_timeout (mkWorld e d tr)
            = (Ok (),
               if eqb (old_is_connected d) (liveness_at d (now e).1)
               then mkWorld (after_check d e) d tr
               else mkWorld (after_check d (after_check d e))
                      (set_old_is_connected (notify_subscribers d)
                         (liveness_at d (now (after_check d e)).1)) tr)).
  { clear. intros e d tr. unfold _on_connection_timeout.
    unfold get_store at 1. unfold mbind at 1, M_bind at 1.
    unfold mbind at 1, M_bind at 1. rewrite is_connected_eval.
    cbn [env data_store trace].
    destruct (eqb (old_is_connected d) (liveness_at d (now e).1)); cbn [negb];
      [done|].
    unfold mbind at 1, M_bind at 1. unfold modify_store at 1. cbn beta iota.
    unfold mbind at 1, M_bind at 1. rewrite is_connected_eval.
    cbn [env data_store trace]. unfold modify_store.
    destruct d as [fs vs subs [last|] o]; reflexivity. }
  rewrite Hrun. eexists. split; [reflexivity|].
  assert (Hsubs : _subscribers (notify_subscribers d) = map notified (_subscribers d))
    by apply notify_subscribers_queues.
  split; [by destruct (eqb _ _)|]. split; [by destruct (eqb _ _)|].
  split; [by destruct (eqb _ _)|]. split; [by destruct (eqb _ _)|].
  split; [|split].
  - intros ->. by rewrite eqb_reflx.
  - intros Hne. destruct (eqb_spec (old_is_connected d) (liveness_at d (now e).1));
      [done|]. cbn. by rewrite <- Hsubs.
  - intros last Hlast Hold Hlate1 Hlate2.
    assert (Hdead : forall t, 2000000 < t - last -> liveness_at d t = false).
    { intros t Ht. unfold liveness_at. rewrite Hlast.
      change (IS_CONNECTED_TIMEOUT * 1000000) with 2000000. by apply Z.leb_gt. }
    rewrite Hold, (Hdead _ Hlate1), (Hdead _ Hlate2). cbn [eqb].
    cbn [data_store env set_old_is_connected old_is_connected _subscribers].
    split; [by rewrite <- Hsubs|]. split; [done|].
    intros w'' Hlate3. rewrite Hrun.
    cbn [old_is_connected set_old_is_connected].
    replace (liveness_at _ _) with false; [by intros [= <-]|].
    unfold liveness_at.
    cbn [_last_connected set_old_is_connected notify_subscribers set_subscribers].
    rewrite Hlast. change (IS_CONNECTED_TIMEOUT * 1000000) with 2000000.
    symmetry. by apply Z.leb_gt.
Qed.
End LivenessNotifications.

(** ** More of the connection manager *)

Section ManagerOutcomes.
Context {Env : Type} `{Environment Env}.

(** X19.  The outcomes of [connect] once the state check has answered.
    A handle that reports connected makes [connect] return true at
    once: no probe, no handshake, no timestamp.  On a handle that is
    not connected the TCP probe goes to the configured address, port
    and timeout; if it raises, [connect] returns false without a
    handshake.  Otherwise the handshake goes to the configured address,
    rack, slot and port; if it raises, [connect] returns false and
    records nothing.  If it succeeds, [connect] returns true, the sync
    timestamp is the next clock reading, and one timer is armed. *)
Theorem connect_outcomes (self : PLCConnection) (w : World Env) :
  let run := Connection.connect self w in
  let state := get_connected (env w) in
  let probe :=
    create_connection (ip_address self) (port self) (connect_timeout self) state.2 in
  let handshake :=
    client_connect (ip_address self) (rack self) (slot self) (port self) probe.2 in
  (state.1 = Ok true ->
   run = (Ok true,
          mkWorld state.2 (data_store w) (trace w ++ [CallConnect; GetConnected])))
  /\ (state.1 = Ok false ->
      (forall e,
         probe.1 = Raise e ->
         run = (Ok false,
                mkWorld probe.2 (data_store w)
                  (trace w ++ [CallConnect; GetConnected; CreateConnection])))
      /\ (probe.1 = Ok () ->
          (forall e,
             handshake.1 = Raise e ->
             run = (Ok false,
                    mkWorld handshake.2 (data_store w)
                      (trace w ++ [CallConnect; GetConnected; CreateConnection;
                                   ClientConnect])))
          /\ (handshake.1 = Ok () ->
              run.1 = Ok true
              /\ _last_connected (data_store run.2) = Some (now handshake.2).1
              /\ _values (data_store run.2) = _values (data_store w)
              /\ trace run.2
                 = trace w ++ [CallConnect; GetConnected; CreateConnection;
                               ClientConnect; CallLater 2]))).
Proof.
  cbv zeta. destruct w as [e0 d tr]. cbn [env data_store trace].
  unfold Connection.connect, try, emit, call, clock.
  unfold mbind, M_bind, mret, M_ret. cbn.
  destruct (get_connected e0) as [[[|]|ex] e1]; cbn.
  - split; [intros _; by rewrite <- app_assoc|]. by intros [=].
  - split; [by intros [=]|]. intros _.
    destruct (create_connection _ _ _ e1) as [[[]|ex] e2]; cbn.
    + split; [by intros e [=]|]. intros _.
      destruct (client_connect _ _ _ _ e2) as [[[]|ex] e3]; cbn.
      * split; [by intros e [=]|]. intros _.
        destruct (now e3) as [t e4]; cbn.
        match goal with
        | |- context [last_connected_setter t ?w0] =>
            destruct (last_connected_setter_spec t w0)
              as (w' & -> & Htr & Hlast & Hvals & _)
        end.
        cbn. rewrite Htr. cbn. rewrite <- !app_assoc. done.
      * split; [|by intros [=]]. intros e _. by rewrite <- !app_assoc.
    + split; [|by intros [=]]. intros e _. by rewrite <- !app_assoc.
  - split; by intros [=].
Qed.



(** X21.  [write] only reads the record.  Whatever the outside world
    does, and whatever [write] returns or raises, the schema and every
    stored value are afterwards what they were before.  Unless the
    handle reported not connected, so that [connect] ran, a run that
    does not return true leaves the whole data store as it was. *)
Theorem write_keeps_values (self : PLCConnection) (w : World Env) :
  let run := Connection.write self w in
  _fields (data_store run.2) = _fields (data_store w)
  /\ _values (data_store run.2) = _values (data_store w)
  /\ ((get_connected (env w)).1 <> Ok false -> run.1 <> Ok true ->
      data_store run.2 = data_store w).
Proof.
  cbv zeta. destruct w as [e0 d tr]. cbn [env data_store trace].
  unfold Connection.write, store_to_bytes, try, emit, call, clock.
  unfold mbind, M_bind, mret, M_ret. cbn.
  destruct (to_bytes d) as [bs|ex]; cbn; [|by repeat split].
  destruct (get_connected e0) as [[[|]|ex] e1] eqn:Hstate; cbn.
  - destruct (db_write _ _ _ e1) as [[[]|ex] e2]; cbn; [|done].
    destruct (now e2) as [t e3]; cbn.
    match goal with
    | |- context [last_connected_setter t ?w0] =>
        destruct (last_connected_setter_spec t w0) as (w' & -> & _ & _ & Hv & Hf)
    end.
    cbn. split; [done|]. split; [done|]. by intros _ [].
  - match goal with
    | |- context [Connection.connect self ?w0] =>
        destruct (connect_spec self w0) as (ok & w1 & cd & -> & _ & _ & Hv1 & Hf1)
    end.
    cbn in Hv1, Hf1 |- *. destruct ok; cbn; [|by split; [|split; [|intros []]]].
    destruct (db_write _ _ _ (env w1)) as [[[]|ex] e2]; cbn;
      [|by split; [|split; [|intros []]]].
    destruct (now e2) as [t e3]; cbn.
    match goal with
    | |- context [last_connected_setter t ?w0] =>
        destruct (last_connected_setter_spec t w0) as (w' & -> & _ & _ & Hv & Hf)
    end.
    cbn in Hv, Hf |- *. split; [congruence|]. split; [congruence|]. by intros [].
  - done.
Qed.
End ManagerOutcomes.

(** ** Writing back what was read *)

Lemma byte_wrap_byte (b : byte) : byte_wrap (byte_to_Z b) = b.
Proof.
  apply byte_to_Z_inj. rewrite byte_wrap_to_Z.
  apply Z.mod_small. apply byte_to_Z_range.
Qed.

Lemma bit_written_same (old bit : Z) :
  0 <= old < 256 -> 0 <= bit ->
  bit_written old bit (Z.testbit old bit) = old.
Proof.
  intros Hold Hbit. apply Z.bits_inj'. intros k Hk.
  rewrite bit_written_bits; [|done|done|].
  - destruct (Z.eqb_spec k bit) as [->|]; done.
  - intros j Hj. apply Z.bits_above_log2; [lia|].
    destruct (Z.eq_dec old 0) as [->|]; [cbn; lia|].
    apply Z.log2_lt_pow2; [lia|].
    apply Z.lt_le_trans with (2 ^ 8); [lia|]. apply Z.pow_le_mono_r; lia.
Qed.

(** X22.  Writing back what was read.  When a bit or word field of the
    data model lies inside the buffer, encoding the value that [read]
    has just decoded from that buffer succeeds and reproduces the
    buffer byte for byte. *)
Theorem write_back_is_identity (f : PLCField) (buf : list byte)
  (current v : pyval) :
  wf_field f -> byte_offset f + size f <= blen buf ->
  (forall off d s, f <> PLCRealField off d s) ->
  read f buf current = Ok v ->
  write f buf v = Ok buf.
Proof.
  intros [Hoff Hbit] Hfit Hkind.
  destruct f as [off bit d s|off d sg s|off d s]; cbn [byte_offset size] in *;
    [| |by destruct (Hkind off d s)].
  - destruct (getitem_in buf off ltac:(lia)) as (b & Hb & _).
    rewrite (read_bool off bit d s buf b current) by (done || lia).
    intros [= <-].
    destruct (write_bool_ok off bit d s buf
                (VInt (Z.b2z (Z.testbit (byte_to_Z b) bit))) ltac:(lia) Hbit)
      as (old & new & Hold & Hnew & ->).
    assert (old = b) as -> by congruence.
    assert (Hpb : py_bool (VInt (Z.b2z (Z.testbit (byte_to_Z b) bit)))
                  = Z.testbit (byte_to_Z b) bit)
      by (by destruct (Z.testbit _ _)).
    rewrite Hpb, bit_written_same in Hnew by (apply byte_to_Z_range || lia).
    apply byte_to_Z_inj in Hnew as ->. by rewrite list_insert_id.
  - unfold blen in Hfit.
    destruct (lookup_lt_is_Some_2 buf (Z.to_nat off)) as [b0 H0]; [lia|].
    destruct (lookup_lt_is_Some_2 buf (Z.to_nat off + 1)) as [b1 H1]; [lia|].
    unfold read. cbn [size].
    rewrite (getslice_two buf off b0 b1) by done.
    unfold blen, int_from_bytes, be_value. cbn [length fold_left].
    change (8 * blen [b0; b1]) with 16.
    change (2 ^ (16 - 1)) with 32768. change (2 ^ 16) with 65536.
    change (Z.of_nat 2 <? 2) with false. cbn iota.
    pose proof (byte_to_Z_range b0) as Hr0. pose proof (byte_to_Z_range b1) as Hr1.
    set (u := (0 * 256 + byte_to_Z b0) * 256 + byte_to_Z b1).
    assert (Hu : u = 256 * byte_to_Z b0 + byte_to_Z b1) by (unfold u; lia).
    intros [= <-].
    unfold write. cbn [py_int size]. change (Z.to_nat 2) with 2%nat.
    rewrite bind_Ok, int_to_bytes_clamped, bind_Ok.
    assert (Hmod : _clamp sg (if sg && (32768 <=? u) then u - 65536 else u)
                   mod 65536 = u).
    { destruct sg; cbn [andb].
      - destruct (Z.leb_spec 32768 u).
        + rewrite clamp_id by lia.
          replace (u - 65536) with (u + (- 1) * 65536) by lia.
          rewrite Z.mod_add by lia. apply Z.mod_small. lia.
        + rewrite clamp_id by lia. apply Z.mod_small. lia.
      - rewrite clamp_id by lia. apply Z.mod_small. lia. }
    rewrite Hmod. cbn [be_bytes].
    change (256 ^ Z.of_nat 1) with 256. change (256 ^ Z.of_nat 0) with 1.
    rewrite Z.div_1_r.
    assert (Hhi : byte_wrap (u / 256) = b0).
    { replace (u / 256) with (byte_to_Z b0); [apply byte_wrap_byte|].
      rewrite Hu. apply Z.div_unique with (byte_to_Z b1); lia. }
    assert (Hlo : byte_wrap u = b1).
    { apply byte_to_Z_inj. rewrite byte_wrap_to_Z, Hu.
      rewrite Z.add_comm, Z.mul_comm, Z.mod_add by lia. apply Z.mod_small. lia. }
    rewrite Hhi, Hlo. f_equal.
    rewrite (setslice_in buf [b0; b1] off 2) by (unfold blen; lia).
    change (Z.to_nat 2) with 2%nat.
    rewrite <- (take_drop (Z.to_nat off) buf) at 3. f_equal.
    rewrite (drop_S buf b0 (Z.to_nat off)) by done.
    rewrite (drop_S buf b1 (S (Z.to_nat off)))
      by (by replace (S (Z.to_nat off)) with (Z.to_nat off + 1)%nat by lia).
    cbn [app]. do 3 f_equal. lia.
Qed.

Lemma write_back_is_identity_witness :
  write (PLCWordField 1 0 true false) [x01; xff; xfe; x07] (VInt (- 2))
  = Ok [x01; xff; xfe; x07].
Proof.
  apply (write_back_is_identity (PLCWordField 1 0 true false) [x01; xff; xfe; x07]
           (VInt 0)).
  - split; [cbn; lia|done].
  - unfold blen. cbn. lia.
  - intros off d s. discriminate.
  - reflexivity.
Defined.

